(** * CashRake campaign simulator: embedding of [cashrake_sim.py]

    The simulator is a month-by-month recurrence (player growth, deposits,
    wagering, a lifetime-capped bonus payout) followed by an even split of
    every month over its calendar days and a re-aggregation of the days by
    Monday-start calendar week.

    The arithmetic of the program is written once, over an interface
    [Number] of the operations Python applies to its [float]s, and is run
    at two instances: exact rationals [Q], over which the properties are
    proved for every configuration, and IEEE binary64 values, over which
    the default run is evaluated. *)

From Stdlib Require Import ZArith QArith Qminmax Lqa Lia List String Floats.
From stdpp Require Import gmap strings list list_numbers sorting.

Local Open Scope string_scope.
Local Open Scope Z_scope.
Local Open Scope list_scope.

(** ** Numbers *)

(** The operations the program uses on its numeric values.  [nltb] is the
    strict comparison on which Python's [min] and [max] are built,
    [of_int] the conversion of an [int] operand to a number (the program
    converts day counts only, from 28 to 31), and [nisnan] the test
    [x != x] by which pandas' grouped sum recognises a missing value. *)
Class Number (N : Type) := {
  num0 : N;
  num1 : N;
  nadd : N -> N -> N;
  nsub : N -> N -> N;
  nmul : N -> N -> N;
  ndiv : N -> N -> N;
  nltb : N -> N -> bool;
  of_int : Z -> N;
  nisnan : N -> bool
}.

Definition Qltb (a b : Q) : bool :=
  match (a ?= b)%Q with Lt => true | _ => false end.

#[global] Instance Q_number : Number Q := {|
  num0 := 0%Q;
  num1 := 1%Q;
  nadd := Qplus;
  nsub := Qminus;
  nmul := Qmult;
  ndiv := Qdiv;
  nltb := Qltb;
  of_int := inject_Z;
  nisnan := fun _ => false
|}.

#[global] Instance float_number : Number float := {|
  num0 := 0%float;
  num1 := 1%float;
  nadd := PrimFloat.add;
  nsub := PrimFloat.sub;
  nmul := PrimFloat.mul;
  ndiv := PrimFloat.div;
  nltb := PrimFloat.ltb;
  of_int := fun z => PrimFloat.of_uint63 (Uint63.of_Z z);
  nisnan := fun x => negb (PrimFloat.eqb x x)
|}.

Declare Scope num_scope.
Delimit Scope num_scope with num.
Infix "+" := nadd : num_scope.
Infix "-" := nsub : num_scope.
Infix "*" := nmul : num_scope.
Infix "/" := ndiv : num_scope.

(** Python's two-argument [max(a, b)] and [min(a, b)]: the first argument
    is kept unless the second is strictly greater (resp. smaller). *)
Definition py_max {N} `{Number N} (a b : N) : N := if nltb a b then b else a.
Definition py_min {N} `{Number N} (a b : N) : N := if nltb b a then b else a.

(** ** Exceptions *)

Inductive exn : Type :=
  | ValueError (msg : string)
  | KeyError (key : string).

Inductive result (A : Type) : Type :=
  | Ok (a : A)
  | Raise (e : exn).
Arguments Ok {A} a.
Arguments Raise {A} e.

(** Sequencing: an exception raised by the first computation ends the run. *)
#[global] Instance result_bind : MBind result := fun A B k r =>
  match r with
  | Ok a => k a
  | Raise e => Raise e
  end.

#[global] Instance result_ret : MRet result := fun A a => Ok a.

(** ** Calendar dates *)

(** The script takes its calendar from Python's [calendar] and [datetime]
    modules and from pandas.  The functions of these libraries that it
    calls are written here from their documented behaviour, on dates as
    triples of year, month and day. *)

Record date : Type := mkdate { year : Z; month : Z; day : Z }.

Definition date_eqb (a b : date) : bool :=
  (year a =? year b) && (month a =? month b) && (day a =? day b).

(** Chronological (lexicographic) order of dates. *)
Definition date_ltb (a b : date) : bool :=
  (year a <? year b)
  || ((year a =? year b)
      && ((month a <? month b) || ((month a =? month b) && (day a <? day b)))).

(** [calendar.isleap] and the day table behind [calendar.monthrange]. *)
Definition isleap (y : Z) : bool :=
  (y mod 4 =? 0) && (negb (y mod 100 =? 0) || (y mod 400 =? 0)).

Definition mdays (m : Z) : Z :=
  match m with
  | 1 => 31 | 2 => 28 | 3 => 31 | 4 => 30 | 5 => 31 | 6 => 30
  | 7 => 31 | 8 => 31 | 9 => 30 | 10 => 31 | 11 => 30 | 12 => 31
  | _ => 0
  end.

(** [month_days(year, month) = calendar.monthrange(year, month)[1]] *)
Definition month_days (y m : Z) : Z :=
  mdays m + (if (m =? 2) && isleap y then 1 else 0).

Definition valid_date (d : date) : Prop :=
  1 <= month d <= 12 /\ 1 <= day d <= month_days (year d) (month d).

(** [first + pd.DateOffset(months=i)]: calendar-month addition, the year
    carried and the day clipped to the length of the target month. *)
Definition add_months (d : date) (i : Z) : date :=
  let t := month d - 1 + i in
  let y := year d + t / 12 in
  let m := t mod 12 + 1 in
  mkdate y m (Z.min (day d) (month_days y m)).

(** [get_month_starts(start_date, months)] *)
Definition get_month_starts (start_date : date) (months : Z) : list date :=
  let first := mkdate (year start_date) (month start_date) 1 in
  (fun i => add_months first i) <$> seqZ 0 months.

(** Proleptic Gregorian ordinal of a date ([date.toordinal]). *)
Definition days_before_year (y : Z) : Z :=
  let p := y - 1 in p * 365 + p / 4 - p / 100 + p / 400.

Definition days_before_month (y m : Z) : Z :=
  fold_right Z.add 0 (month_days y <$> seqZ 1 (m - 1)).

Definition toordinal (d : date) : Z :=
  days_before_year (year d) + days_before_month (year d) (month d) + day d.

(** [date.weekday]: Monday is 0, Sunday is 6. *)
Definition weekday (d : date) : Z := (toordinal d + 6) mod 7.

Definition prev_day (d : date) : date :=
  if 1 <? day d then mkdate (year d) (month d) (day d - 1)
  else if 1 <? month d
       then mkdate (year d) (month d - 1) (month_days (year d) (month d - 1))
       else mkdate (year d - 1) 12 31.

(** [date.dt.to_period('W')] followed by [p.start_time.date()]: the
    Monday that opens the week containing [d]. *)
Definition week_start_of (d : date) : date :=
  Nat.iter (Z.to_nat (weekday d)) prev_day d.

(** ** Tables *)

(** One row of [monthly_df]; the fields are the keys of the dictionary
    appended to [rows]. *)
Record MonthRecord {N : Type} : Type := {
  m_month_index : Z;
  m_month_start : date;
  m_growth_param : N;
  m_growth_model : string;
  m_retained_players : N;
  m_new_players : N;
  m_total_players : N;
  m_deposits : N;
  m_lifetime_deposits : N;
  m_lifetime_cap : N;
  m_remaining_cap_before : N;
  m_expected_cashback : N;
  m_expected_rakeback : N;
  m_expected_total_cashrake : N;
  m_actual_cashrake_paid : N;
  m_lifetime_cap_used : N;
  m_remaining_cap_after : N;
  m_total_wagering : N;
  m_gross_revenue : N;
  m_acquisition_cost : N;
  m_net_profit : N
}.
Arguments MonthRecord N : clear implicits.

(** One dictionary of [daily_list]. *)
Record DailyRecord {N : Type} : Type := {
  d_date : date;
  d_month_index : Z;
  d_players : N;
  d_deposits : N;
  d_total_wagering : N;
  d_gross_revenue : N;
  d_expected_cashback : N;
  d_expected_rakeback : N;
  d_expected_total_cashrake : N;
  d_actual_cashrake_paid : N;
  d_acquisition_cost : N;
  d_net_profit : N
}.
Arguments DailyRecord N : clear implicits.

(** One row of [daily_df] once the [week_start] column has been added. *)
Record DailyRow {N : Type} : Type := {
  row : DailyRecord N;
  week_start : date
}.
Arguments DailyRow N : clear implicits.

(** One row of [weekly_df]: the group key and the sum of every numeric
    column of [daily_df] ([month_index] is numeric, and summed as well). *)
Record WeeklyRecord {N : Type} : Type := {
  w_week_start : date;
  w_month_index : Z;
  w_players : N;
  w_deposits : N;
  w_total_wagering : N;
  w_gross_revenue : N;
  w_expected_cashback : N;
  w_expected_rakeback : N;
  w_expected_total_cashrake : N;
  w_actual_cashrake_paid : N;
  w_acquisition_cost : N;
  w_net_profit : N
}.
Arguments WeeklyRecord N : clear implicits.

(** The ten floating-point columns that the daily and weekly tables share
    with the monthly one. *)
Inductive FlowCol : Type :=
  | c_players | c_deposits | c_total_wagering | c_gross_revenue
  | c_expected_cashback | c_expected_rakeback | c_expected_total_cashrake
  | c_actual_cashrake_paid | c_acquisition_cost | c_net_profit.

Definition month_col {N} (c : FlowCol) (r : MonthRecord N) : N :=
  match c with
  | c_players => m_total_players r
  | c_deposits => m_deposits r
  | c_total_wagering => m_total_wagering r
  | c_gross_revenue => m_gross_revenue r
  | c_expected_cashback => m_expected_cashback r
  | c_expected_rakeback => m_expected_rakeback r
  | c_expected_total_cashrake => m_expected_total_cashrake r
  | c_actual_cashrake_paid => m_actual_cashrake_paid r
  | c_acquisition_cost => m_acquisition_cost r
  | c_net_profit => m_net_profit r
  end.

Definition daily_col {N} (c : FlowCol) (r : DailyRecord N) : N :=
  match c with
  | c_players => d_players r
  | c_deposits => d_deposits r
  | c_total_wagering => d_total_wagering r
  | c_gross_revenue => d_gross_revenue r
  | c_expected_cashback => d_expected_cashback r
  | c_expected_rakeback => d_expected_rakeback r
  | c_expected_total_cashrake => d_expected_total_cashrake r
  | c_actual_cashrake_paid => d_actual_cashrake_paid r
  | c_acquisition_cost => d_acquisition_cost r
  | c_net_profit => d_net_profit r
  end.

Definition weekly_col {N} (c : FlowCol) (r : WeeklyRecord N) : N :=
  match c with
  | c_players => w_players r
  | c_deposits => w_deposits r
  | c_total_wagering => w_total_wagering r
  | c_gross_revenue => w_gross_revenue r
  | c_expected_cashback => w_expected_cashback r
  | c_expected_rakeback => w_expected_rakeback r
  | c_expected_total_cashrake => w_expected_total_cashrake r
  | c_actual_cashrake_paid => w_actual_cashrake_paid r
  | c_acquisition_cost => w_acquisition_cost r
  | c_net_profit => w_net_profit r
  end.

(** The three tables returned by [simulate], in the order of its [return]. *)
Record Tables {N : Type} : Type := {
  monthly_df : list (MonthRecord N);
  weekly_df : list (WeeklyRecord N);
  daily_df : list (DailyRow N)
}.
Arguments Tables N : clear implicits.

(** ** Parameters *)

(** The module-level constants of the script. *)
Record Params {N : Type} : Type := {
  START_DATE : date;
  MONTHS : Z;
  STARTING_PLAYERS : N;
  AVG_DEPOSIT : N;
  AVG_BET : N;
  WAGER_MULTIPLIER : N;
  CASHBACK_RATE : N;
  HOUSE_EDGE : N;
  RAKEBACK_RATE : N;
  CAP_RATE : N;
  ACQ_COST_PER_PLAYER : N;
  RETENTION_RATE : N;
  GROWTH_RATES_MAP : gmap Z N;
  DEFAULT_GROWTH_AFTER : N
}.
Arguments Params N : clear implicits.

(** The same constants with another start date. *)
Definition with_start_date {N} (P : Params N) (d : date) : Params N :=
  {| START_DATE := d; MONTHS := MONTHS P;
     STARTING_PLAYERS := STARTING_PLAYERS P; AVG_DEPOSIT := AVG_DEPOSIT P;
     AVG_BET := AVG_BET P; WAGER_MULTIPLIER := WAGER_MULTIPLIER P;
     CASHBACK_RATE := CASHBACK_RATE P; HOUSE_EDGE := HOUSE_EDGE P;
     RAKEBACK_RATE := RAKEBACK_RATE P; CAP_RATE := CAP_RATE P;
     ACQ_COST_PER_PLAYER := ACQ_COST_PER_PLAYER P;
     RETENTION_RATE := RETENTION_RATE P;
     GROWTH_RATES_MAP := GROWTH_RATES_MAP P;
     DEFAULT_GROWTH_AFTER := DEFAULT_GROWTH_AFTER P |}.

(** [enumerate(l, start)] *)
Fixpoint enumerate {A} (l : list A) (start : Z) : list (Z * A) :=
  match l with
  | [] => []
  | x :: l' => (start, x) :: enumerate l' (start + 1)
  end.

Section Simulation.
Context {N : Type} `{Number N}.
Variable P : Params N.
Local Open Scope num_scope.

Definition RAKEBACK_PER_WAGER_FRAC : N := HOUSE_EDGE P * RAKEBACK_RATE P.
Definition CASHBACK_PER_WAGER_FRAC : N := HOUSE_EDGE P * CASHBACK_RATE P.

(** [get_growth_for_month(idx)]: the three branches of the source, the
    last one being [GROWTH_RATES_MAP.get(idx, DEFAULT_GROWTH_AFTER)]. *)
Definition get_growth_for_month (idx : Z) : N :=
  match GROWTH_RATES_MAP P !! idx with
  | Some g => g
  | None =>
      if (3 <? idx)%Z then DEFAULT_GROWTH_AFTER P
      else default (DEFAULT_GROWTH_AFTER P) (GROWTH_RATES_MAP P !! idx)
  end.

(** The variables that the loop of [simulate] carries from month to month. *)
Record LoopState : Type := {
  rows : list (MonthRecord N);
  current_players : N;
  lifetime_deposits : N;
  lifetime_cap_used : N
}.

Definition initial_state : LoopState :=
  {| rows := [];
     current_players := STARTING_PLAYERS P;
     lifetime_deposits := num0;
     lifetime_cap_used := num0 |}.

(** The player counts of a month: [(retained, new_players, total_players)],
    or the [ValueError] of an unknown growth model. *)
Definition month_players (growth_model : string) (current_players growth_param : N)
    : result (N * N * N) :=
  if String.eqb growth_model "retained_plus_new" then
    let retained := current_players * RETENTION_RATE P in
    let new_players := current_players * growth_param in
    let total_players := retained + new_players in
    Ok (retained, new_players, total_players)
  else if String.eqb growth_model "simple_growth" then
    let mult := num1 + growth_param in
    let total_players := current_players * mult in
    let retained := current_players * RETENTION_RATE P in
    let new_players := py_max (total_players - retained) num0 in
    Ok (retained, new_players, total_players)
  else Raise (ValueError "Unknown growth_model").

(** One iteration of the [for m_idx, mstart in enumerate(...)] loop. *)
Definition month_step (growth_model : string) (st : LoopState)
    (m_idx : Z) (mstart : date) : result LoopState :=
  let growth_param := get_growth_for_month m_idx in
  '(retained, new_players, total_players) ←
    month_players growth_model (current_players st) growth_param;
  let deposits := total_players * AVG_DEPOSIT P in
  let lifetime_deposits := lifetime_deposits st + deposits in
  let lifetime_cap := lifetime_deposits * CAP_RATE P in
  let remaining_cap_before := py_max num0 (lifetime_cap - lifetime_cap_used st) in
  let total_wagering := deposits * WAGER_MULTIPLIER P in
  let gross_revenue := total_wagering * HOUSE_EDGE P in
  let expected_cashback := total_wagering * CASHBACK_PER_WAGER_FRAC in
  let expected_rakeback := total_wagering * RAKEBACK_PER_WAGER_FRAC in
  let expected_total_cashrake := expected_cashback + expected_rakeback in
  let actual_cashrake_paid := py_min expected_total_cashrake remaining_cap_before in
  let lifetime_cap_used := lifetime_cap_used st + actual_cashrake_paid in
  let remaining_cap_after := py_max num0 (lifetime_cap - lifetime_cap_used) in
  let acq_cost := new_players * ACQ_COST_PER_PLAYER P in
  let net_profit := gross_revenue - actual_cashrake_paid - acq_cost in
  Ok {| rows := rows st ++ [
          {| m_month_index := m_idx;
             m_month_start := mstart;
             m_growth_param := growth_param;
             m_growth_model := growth_model;
             m_retained_players := retained;
             m_new_players := new_players;
             m_total_players := total_players;
             m_deposits := deposits;
             m_lifetime_deposits := lifetime_deposits;
             m_lifetime_cap := lifetime_cap;
             m_remaining_cap_before := remaining_cap_before;
             m_expected_cashback := expected_cashback;
             m_expected_rakeback := expected_rakeback;
             m_expected_total_cashrake := expected_total_cashrake;
             m_actual_cashrake_paid := actual_cashrake_paid;
             m_lifetime_cap_used := lifetime_cap_used;
             m_remaining_cap_after := remaining_cap_after;
             m_total_wagering := total_wagering;
             m_gross_revenue := gross_revenue;
             m_acquisition_cost := acq_cost;
             m_net_profit := net_profit |} ];
        current_players := total_players;
        lifetime_deposits := lifetime_deposits;
        lifetime_cap_used := lifetime_cap_used |}.

(** The loop itself, over the enumerated month starts. *)
Fixpoint run_months (growth_model : string) (st : LoopState)
    (months : list (Z * date)) : result LoopState :=
  match months with
  | [] => Ok st
  | (m_idx, mstart) :: rest =>
      st' ← month_step growth_model st m_idx mstart;
      run_months growth_model st' rest
  end.

(** The rows of [monthly_df]. *)
Definition monthly_rows (growth_model : string) : result (list (MonthRecord N)) :=
  let month_starts := get_month_starts (START_DATE P) (MONTHS P) in
  st ← run_months growth_model initial_state (enumerate month_starts 1);
  Ok (rows st).

(** The inner loop of the daily table: the days [1 .. ndays] of the
    month of [r], each carrying the fraction [1.0 / ndays] of the month. *)
Definition daily_of_month (r : MonthRecord N) : list (DailyRecord N) :=
  let y := year (m_month_start r) in
  let m := month (m_month_start r) in
  let ndays := month_days y m in
  (fun d =>
     let frac := num1 / of_int ndays in
     {| d_date := mkdate y m d;
        d_month_index := m_month_index r;
        d_players := m_total_players r * frac;
        d_deposits := m_deposits r * frac;
        d_total_wagering := m_total_wagering r * frac;
        d_gross_revenue := m_gross_revenue r * frac;
        d_expected_cashback := m_expected_cashback r * frac;
        d_expected_rakeback := m_expected_rakeback r * frac;
        d_expected_total_cashrake := m_expected_total_cashrake r * frac;
        d_actual_cashrake_paid := m_actual_cashrake_paid r * frac;
        d_acquisition_cost := m_acquisition_cost r * frac;
        d_net_profit := m_net_profit r * frac |}) <$> seqZ 1 ndays.

Definition daily_list (monthly : list (MonthRecord N)) : list (DailyRecord N) :=
  monthly ≫= daily_of_month.

(** [daily_df['week_start'] = ...] *)
Definition add_week_start (r : DailyRecord N) : DailyRow N :=
  {| row := r; week_start := week_start_of (d_date r) |}.

(** One step of the summation that pandas' [groupby(...).sum()] runs on
    a numeric column ([group_sum]): a missing value is skipped; otherwise
    the value is added to the running sum [sumx] of its group with Kahan's
    compensation, the rounding error of the addition being kept in
    [compensation] and taken off the next value.  A compensation that is
    not a number is reset to zero. *)
Definition kahan_step (acc : N * N) (val : N) : N * N :=
  if nisnan val then acc
  else
    let '(sumx, compensation) := acc in
    let y := val - compensation in
    let t := sumx + y in
    let compensation := t - sumx - y in
    let compensation := if nisnan compensation then num0 else compensation in
    (t, compensation).

(** The grouped sum of the values of one group, in row order. *)
Definition pandas_sum (l : list N) : N :=
  (fold_left kahan_step l (num0, num0)).1.

(** A group while the frame is read: its key, the sum of its integer
    column [month_index] (for which the compensation is always zero),
    and the running sum and compensation of each float column. *)
Record WeekGroup : Type := {
  g_week_start : date;
  g_month_index : Z;
  g_acc : FlowCol -> N * N
}.

(** A row added to a group, and a group opened by its first row: every
    sum starts from zero. *)
Definition group_add (g : WeekGroup) (x : DailyRow N) : WeekGroup :=
  {| g_week_start := g_week_start g;
     g_month_index := (g_month_index g + d_month_index (row x))%Z;
     g_acc := fun c => kahan_step (g_acc g c) (daily_col c (row x)) |}.

Definition group_new (x : DailyRow N) : WeekGroup :=
  group_add {| g_week_start := week_start x;
               g_month_index := 0;
               g_acc := fun _ => (num0, num0) |} x.

(** Groups are kept in increasing key order (pandas sorts the group
    keys), and a row joins the group of its key or opens a new one in
    its place. *)
Fixpoint group_insert (x : DailyRow N) (groups : list WeekGroup)
    : list WeekGroup :=
  match groups with
  | [] => [group_new x]
  | g :: rest =>
      if date_eqb (week_start x) (g_week_start g) then group_add g x :: rest
      else if date_ltb (week_start x) (g_week_start g) then group_new x :: g :: rest
      else g :: group_insert x rest
  end.

Definition week_groups (df : list (DailyRow N)) : list WeekGroup :=
  fold_left (fun groups x => group_insert x groups) df [].

(** The row of the result for a group: its key and its sums. *)
Definition weekly_of_group (g : WeekGroup) : WeeklyRecord N :=
  {| w_week_start := g_week_start g;
     w_month_index := g_month_index g;
     w_players := (g_acc g c_players).1;
     w_deposits := (g_acc g c_deposits).1;
     w_total_wagering := (g_acc g c_total_wagering).1;
     w_gross_revenue := (g_acc g c_gross_revenue).1;
     w_expected_cashback := (g_acc g c_expected_cashback).1;
     w_expected_rakeback := (g_acc g c_expected_rakeback).1;
     w_expected_total_cashrake := (g_acc g c_expected_total_cashrake).1;
     w_actual_cashrake_paid := (g_acc g c_actual_cashrake_paid).1;
     w_acquisition_cost := (g_acc g c_acquisition_cost).1;
     w_net_profit := (g_acc g c_net_profit).1 |}.

(** [groupby('week_start', as_index=False)[numeric_cols].sum()] *)
Definition groupby_week_sum (df : list (DailyRow N)) : list (WeeklyRecord N) :=
  weekly_of_group <$> week_groups df.

(** [daily_df['date'] = ...; daily_df['week_start'] = ...]: a frame built
    from an empty list has no column at all, and reading its [date]
    column raises [KeyError]. *)
Definition add_week_start_column (daily : list (DailyRecord N))
    : result (list (DailyRow N)) :=
  match daily with
  | [] => Raise (KeyError "date")
  | _ :: _ => Ok (add_week_start <$> daily)
  end.

(** [simulate(growth_model)] *)
Definition simulate (growth_model : string) : result (Tables N) :=
  monthly ← monthly_rows growth_model;
  daily ← add_week_start_column (daily_list monthly);
  let weekly := groupby_week_sum daily in
  Ok {| monthly_df := monthly; weekly_df := weekly; daily_df := daily |}.

End Simulation.

(** ** Command line *)

(** [main()]: [choices] is the list given to [add_argument]; the argument
    of [main] is the value passed to [--growth-model], if the flag is
    present.  A value outside [choices] makes [parse_args] exit with
    status 2; [SystemExit] is modelled as the exit status alone. *)
Definition growth_model_choices : list string :=
  ["retained_plus_new"; "simple_growth"].

Inductive outcome (A : Type) : Type :=
  | Returned (a : A)
  | Uncaught (e : exn)
  | SystemExit (status : Z).
Arguments Returned {A} a.
Arguments Uncaught {A} e.
Arguments SystemExit {A} status.

Definition parse_args (flag : option string) : outcome string :=
  match flag with
  | None => Returned "retained_plus_new"
  | Some v =>
      if existsb (String.eqb v) growth_model_choices then Returned v
      else SystemExit 2
  end.

Definition main {N} `{Number N} (P : Params N) (flag : option string)
    : outcome (Tables N) :=
  match parse_args flag with
  | Returned growth_model =>
      match simulate P growth_model with
      | Ok tables => Returned tables
      | Raise e => Uncaught e
      end
  | Uncaught e => Uncaught e
  | SystemExit status => SystemExit status
  end.

(** ** The constants of the script *)

Definition defaults : Params Q := {|
  START_DATE := mkdate 2025 11 23;
  MONTHS := 12;
  STARTING_PLAYERS := 1000%Q;
  AVG_DEPOSIT := 100.0%Q;
  AVG_BET := 5.0%Q;
  WAGER_MULTIPLIER := 7.0%Q;
  CASHBACK_RATE := 0.03%Q;
  HOUSE_EDGE := 0.04%Q;
  RAKEBACK_RATE := 0.20%Q;
  CAP_RATE := 0.33%Q;
  ACQ_COST_PER_PLAYER := 40.0%Q;
  RETENTION_RATE := 0.60%Q;
  GROWTH_RATES_MAP := {[ 1 := 3.0%Q; 2 := 1.5%Q; 3 := 0.5%Q ]};
  DEFAULT_GROWTH_AFTER := 0.35%Q
|}.

(** The same constants as binary64 values, each literal rounded to the
    nearest representable number as Python does. *)
#[warnings="-inexact-float"]
Definition defaults_binary64 : Params float := {|
  START_DATE := mkdate 2025 11 23;
  MONTHS := 12;
  STARTING_PLAYERS := 1000%float;
  AVG_DEPOSIT := 100.0%float;
  AVG_BET := 5.0%float;
  WAGER_MULTIPLIER := 7.0%float;
  CASHBACK_RATE := 0.03%float;
  HOUSE_EDGE := 0.04%float;
  RAKEBACK_RATE := 0.20%float;
  CAP_RATE := 0.33%float;
  ACQ_COST_PER_PLAYER := 40.0%float;
  RETENTION_RATE := 0.60%float;
  GROWTH_RATES_MAP := {[ 1 := 3.0%float; 2 := 1.5%float; 3 := 0.5%float ]};
  DEFAULT_GROWTH_AFTER := 0.35%float
|}.

(** * Specification *)

Local Open Scope Q_scope.

(** ** Growth models and constants *)

Definition valid_growth_model (gm : string) : Prop :=
  gm = "retained_plus_new" \/ gm = "simple_growth".

(** ** One iteration, as a relation *)

(** [month_row P gm st i d r st']: the iteration for month [i] starting on
    [d], run in state [st] under growth model [gm], appends the row [r] and
    leaves the state [st'].  Every field is related to the ones it is
    computed from. *)
Record month_row {N} `{Number N} (P : Params N) (gm : string) (st : LoopState)
    (i : Z) (d : date) (r : MonthRecord N) (st' : LoopState) : Prop := {
  mr_rows : rows st' = rows st ++ [r];
  mr_current_players : current_players st' = m_total_players r;
  mr_lifetime_deposits_st : lifetime_deposits st' = m_lifetime_deposits r;
  mr_lifetime_cap_used_st : lifetime_cap_used st' = m_lifetime_cap_used r;
  mr_month_index : m_month_index r = i;
  mr_month_start : m_month_start r = d;
  mr_growth_param : m_growth_param r = get_growth_for_month P i;
  mr_growth_model : m_growth_model r = gm;
  mr_players :
    month_players P gm (current_players st) (m_growth_param r)
    = Ok (m_retained_players r, m_new_players r, m_total_players r);
  mr_deposits : m_deposits r = (m_total_players r * AVG_DEPOSIT P)%num;
  mr_lifetime_deposits :
    m_lifetime_deposits r = (lifetime_deposits st + m_deposits r)%num;
  mr_lifetime_cap : m_lifetime_cap r = (m_lifetime_deposits r * CAP_RATE P)%num;
  mr_remaining_cap_before :
    m_remaining_cap_before r
    = py_max num0 (m_lifetime_cap r - lifetime_cap_used st)%num;
  mr_total_wagering :
    m_total_wagering r = (m_deposits r * WAGER_MULTIPLIER P)%num;
  mr_gross_revenue : m_gross_revenue r = (m_total_wagering r * HOUSE_EDGE P)%num;
  mr_expected_cashback :
    m_expected_cashback r = (m_total_wagering r * CASHBACK_PER_WAGER_FRAC P)%num;
  mr_expected_rakeback :
    m_expected_rakeback r = (m_total_wagering r * RAKEBACK_PER_WAGER_FRAC P)%num;
  mr_expected_total_cashrake :
    m_expected_total_cashrake r
    = (m_expected_cashback r + m_expected_rakeback r)%num;
  mr_actual_cashrake_paid :
    m_actual_cashrake_paid r
    = py_min (m_expected_total_cashrake r) (m_remaining_cap_before r);
  mr_lifetime_cap_used :
    m_lifetime_cap_used r = (lifetime_cap_used st + m_actual_cashrake_paid r)%num;
  mr_remaining_cap_after :
    m_remaining_cap_after r
    = py_max num0 (m_lifetime_cap r - m_lifetime_cap_used r)%num;
  mr_acquisition_cost :
    m_acquisition_cost r = (m_new_players r * ACQ_COST_PER_PLAYER P)%num;
  mr_net_profit :
    m_net_profit r
    = (m_gross_revenue r - m_actual_cashrake_paid r - m_acquisition_cost r)%num
}.

(** Non-negative constants: the assumption under which the quantities of
    the simulation are amounts. *)
Record nonneg_params (P : Params Q) : Prop := {
  nn_starting_players : 0 <= STARTING_PLAYERS P;
  nn_avg_deposit : 0 <= AVG_DEPOSIT P;
  nn_wager_multiplier : 0 <= WAGER_MULTIPLIER P;
  nn_cashback_rate : 0 <= CASHBACK_RATE P;
  nn_house_edge : 0 <= HOUSE_EDGE P;
  nn_rakeback_rate : 0 <= RAKEBACK_RATE P;
  nn_cap_rate : 0 <= CAP_RATE P;
  nn_acq_cost : 0 <= ACQ_COST_PER_PLAYER P;
  nn_retention_rate : 0 <= RETENTION_RATE P;
  nn_growth_rates : map_Forall (fun _ g => 0 <= g) (GROWTH_RATES_MAP P);
  nn_default_growth : 0 <= DEFAULT_GROWTH_AFTER P
}.

(** What the loop maintains about its accumulators. *)
Record state_ok (P : Params Q) (st : LoopState) : Prop := {
  ok_current_players : 0 <= current_players st;
  ok_lifetime_deposits : 0 <= lifetime_deposits st;
  ok_lifetime_cap_used : 0 <= lifetime_cap_used st;
  ok_cap : lifetime_cap_used st <= lifetime_deposits st * CAP_RATE P
}.

(** Every field of a row but the net profit is non-negative. *)
Record row_nonneg (r : MonthRecord Q) : Prop := {
  rn_retained_players : 0 <= m_retained_players r;
  rn_new_players : 0 <= m_new_players r;
  rn_total_players : 0 <= m_total_players r;
  rn_deposits : 0 <= m_deposits r;
  rn_lifetime_deposits : 0 <= m_lifetime_deposits r;
  rn_lifetime_cap : 0 <= m_lifetime_cap r;
  rn_remaining_cap_before : 0 <= m_remaining_cap_before r;
  rn_expected_cashback : 0 <= m_expected_cashback r;
  rn_expected_rakeback : 0 <= m_expected_rakeback r;
  rn_expected_total_cashrake : 0 <= m_expected_total_cashrake r;
  rn_actual_cashrake_paid : 0 <= m_actual_cashrake_paid r;
  rn_lifetime_cap_used : 0 <= m_lifetime_cap_used r;
  rn_remaining_cap_after : 0 <= m_remaining_cap_after r;
  rn_total_wagering : 0 <= m_total_wagering r;
  rn_gross_revenue : 0 <= m_gross_revenue r;
  rn_acquisition_cost : 0 <= m_acquisition_cost r
}.

(** A column [f] of a table does not decrease from a row to a later one. *)
Definition nondecreasing (f : MonthRecord Q -> Q) (l : list (MonthRecord Q)) : Prop :=
  forall (i j : nat) r1 r2,
    (i <= j)%nat -> l !! i = Some r1 -> l !! j = Some r2 -> f r1 <= f r2.

(** The state kept by the loop for the cap: the accumulator bounds the
    [lifetime_cap_used] column, which is itself non-decreasing. *)
Record cap_state (P : Params Q) (st : LoopState) : Prop := {
  cs_ok : state_ok P st;
  cs_sorted : nondecreasing m_lifetime_cap_used (rows st);
  cs_bound : Forall (fun r => m_lifetime_cap_used r <= lifetime_cap_used st) (rows st)
}.

(** The start of the first month: the first day of the start month. *)
Definition first_month_start {N} (P : Params N) : date :=
  add_months (mkdate (year (START_DATE P)) (month (START_DATE P)) 1) 0.

(** ** Dates, weeks and sums *)

#[global] Instance date_eq_dec : EqDecision date.
Proof. solve_decision. Defined.

(** Chronological order, as a proposition. *)
Definition date_lt (a b : date) : Prop := date_ltb a b = true.

(** The sum of a column, as exact numbers. *)
Definition Qsum (l : list Q) : Q := fold_right Qplus 0 l.
Definition Zsum (l : list Z) : Z := fold_right Z.add 0%Z l.

(** The rows of the daily table in the week that starts on [k]. *)
Definition week_rows {N} (k : date) (df : list (DailyRow N)) : list (DailyRow N) :=
  filter (fun x => week_start x = k) df.

(** A group carries, for the rows of its week read so far, the sum of
    [month_index] and the running sum and compensation of each column. *)
Definition group_ok {N} `{Number N} (df : list (DailyRow N)) (g : WeekGroup)
    : Prop :=
  g_month_index g
    = Zsum ((fun x => d_month_index (row x)) <$> week_rows (g_week_start g) df)
  /\ forall c,
       g_acc g c
       = fold_left kahan_step
           ((fun x => daily_col c (row x)) <$> week_rows (g_week_start g) df)
           (num0, num0).

(** The weekly table groups the daily table by Monday-start week: every
    daily row is keyed by the Monday that opens the week of its date (on
    or at most six days before the date); the weekly table has one row
    per week start that occurs in the daily table and no other, in
    strictly increasing chronological order; each weekly row stands for a
    non-empty set of daily rows, those of its week, and each of its
    numeric columns is the grouped sum of that column over them, in row
    order ([month_index], an integer column, is their sum). *)
Definition weekly_by_week {N} `{Number N} (t : Tables N) : Prop :=
  Forall (fun x =>
    week_start x = week_start_of (d_date (row x))
    /\ weekday (week_start x) = 0%Z
    /\ (toordinal (week_start x) <= toordinal (d_date (row x))
        <= toordinal (week_start x) + 6)%Z) (daily_df t)
  /\ StronglySorted date_lt (w_week_start <$> weekly_df t)
  /\ StronglySorted (fun a b => (toordinal a < toordinal b)%Z)
       (w_week_start <$> weekly_df t)
  /\ NoDup (w_week_start <$> weekly_df t)
  /\ (forall k, k ∈ w_week_start <$> weekly_df t <-> k ∈ week_start <$> daily_df t)
  /\ Forall (fun w =>
       let days := week_rows (w_week_start w) (daily_df t) in
       days <> []
       /\ w_month_index w = Zsum ((fun x => d_month_index (row x)) <$> days)
       /\ forall c,
            weekly_col c w = pandas_sum ((fun x => daily_col c (row x)) <$> days))
       (weekly_df t).

(** ** The binary64 run of the script *)

(** The checks below are evaluated on the tables that the script computes
    with its own constants in binary64 arithmetic. *)
Definition all_columns : list FlowCol :=
  [c_players; c_deposits; c_total_wagering; c_gross_revenue;
   c_expected_cashback; c_expected_rakeback; c_expected_total_cashrake;
   c_actual_cashrake_paid; c_acquisition_cost; c_net_profit].

Definition run_binary64 (gm : string) (chk : Tables float -> bool) : bool :=
  match simulate defaults_binary64 gm with
  | Ok t => chk t
  | Raise _ => false
  end.

Definition paid_is_min_b (r : MonthRecord float) : bool :=
  PrimFloat.eqb (m_actual_cashrake_paid r)
    (py_min (m_expected_total_cashrake r) (m_remaining_cap_before r))
  && PrimFloat.leb (m_actual_cashrake_paid r) (m_expected_total_cashrake r)
  && PrimFloat.leb (m_actual_cashrake_paid r) (m_remaining_cap_before r).

Definition cap_respected_b (r : MonthRecord float) : bool :=
  PrimFloat.eqb (m_lifetime_cap r)
    (m_lifetime_deposits r * CAP_RATE defaults_binary64)%float
  && PrimFloat.leb (m_lifetime_cap_used r) (m_lifetime_cap r)
  && PrimFloat.eqb (m_remaining_cap_after r)
       (py_max 0%float (m_lifetime_cap r - m_lifetime_cap_used r)%float).

Fixpoint nondecreasing_b (l : list float) : bool :=
  match l with
  | a :: (b :: _) as rest => PrimFloat.leb a b && nondecreasing_b rest
  | _ => true
  end.

Definition row_nonneg_b (r : MonthRecord float) : bool :=
  forallb (PrimFloat.leb 0%float)
    [m_retained_players r; m_new_players r; m_total_players r; m_deposits r;
     m_lifetime_deposits r; m_lifetime_cap r; m_remaining_cap_before r;
     m_expected_cashback r; m_expected_rakeback r; m_expected_total_cashrake r;
     m_actual_cashrake_paid r; m_lifetime_cap_used r; m_remaining_cap_after r;
     m_total_wagering r; m_gross_revenue r; m_acquisition_cost r].

(** Left-to-right sum, and equality up to a relative error of 1e-12. *)
Definition float_sum (l : list float) : float := fold_left PrimFloat.add l 0%float.

#[warnings="-inexact-float"]
Definition close_b (a b : float) : bool :=
  PrimFloat.leb (PrimFloat.abs (a - b)) (1e-12 * PrimFloat.abs b)%float.

Definition daily_sums_close_b (r : MonthRecord float) : bool :=
  forallb (fun c => close_b (float_sum (daily_col c <$> daily_of_month r)) (month_col c r))
    all_columns.

Definition daily_shares_close_b (r : MonthRecord float) : bool :=
  let n := month_days (year (m_month_start r)) (month (m_month_start r)) in
  forallb (fun c =>
    forallb (fun x => close_b (daily_col c x) (month_col c r / of_int n)%float)
      (daily_of_month r)) all_columns.

(** Some daily share differs from the quotient of the month's value by
    the number of days: the product by [1.0 / ndays] is rounded twice. *)
Definition daily_share_rounded_b (r : MonthRecord float) : bool :=
  let n := month_days (year (m_month_start r)) (month (m_month_start r)) in
  existsb (fun c =>
    existsb (fun x =>
      negb (PrimFloat.eqb (daily_col c x) (month_col c r / of_int n)%float))
      (daily_of_month r)) all_columns.


(** The rational number that a finite binary64 value stands for. *)
Definition float_to_Q (x : float) : Q :=
  match Prim2SF x with
  | S754_finite s m e =>
      let v := (inject_Z (Z.pos m) * 2 ^ e)%Q in
      if s then (- v)%Q else v
  | _ => 0%Q
  end.

(** The [players] value of a weekly row is neither the left-to-right
    binary64 sum nor the exact sum of the [players] values of the daily
    rows of its week. *)
Definition weekly_players_rounded_b (daily : list (DailyRow float))
    (w : WeeklyRecord float) : bool :=
  let days := (fun x => d_players (row x)) <$> week_rows (w_week_start w) daily in
  negb (PrimFloat.eqb (w_players w) (float_sum days))
  && negb (Qeq_bool (float_to_Q (w_players w)) (Qsum (float_to_Q <$> days))).

(** ** From one month to the next *)

(** The row before the one at position [k] of a table, if any. *)
Definition prev_row {N} (l : list (MonthRecord N)) (k : nat)
    : option (MonthRecord N) :=
  match k with
  | O => None
  | S j => l !! j
  end.

(** What an iteration finds in [current_players], [lifetime_deposits] and
    [lifetime_cap_used]: the initial values, or what the previous
    iteration left. *)
Definition carried {N} `{Number N} (P : Params N) (prev : option (MonthRecord N))
    : N * N * N :=
  match prev with
  | None => (STARTING_PLAYERS P, num0, num0)
  | Some r => (m_total_players r, m_lifetime_deposits r, m_lifetime_cap_used r)
  end.

(** The row [r] is the one an iteration computes after the row [prev]. *)
Definition row_follows {N} `{Number N} (P : Params N) (gm : string)
    (prev : option (MonthRecord N)) (r : MonthRecord N) : Prop :=
  exists st st',
    (current_players st, lifetime_deposits st, lifetime_cap_used st) = carried P prev
    /\ month_row P gm st (m_month_index r) (m_month_start r) r st'.

(** The same constants with another number of months. *)
Definition with_months {N} (P : Params N) (n : Z) : Params N :=
  {| START_DATE := START_DATE P; MONTHS := n;
     STARTING_PLAYERS := STARTING_PLAYERS P; AVG_DEPOSIT := AVG_DEPOSIT P;
     AVG_BET := AVG_BET P; WAGER_MULTIPLIER := WAGER_MULTIPLIER P;
     CASHBACK_RATE := CASHBACK_RATE P; HOUSE_EDGE := HOUSE_EDGE P;
     RAKEBACK_RATE := RAKEBACK_RATE P; CAP_RATE := CAP_RATE P;
     ACQ_COST_PER_PLAYER := ACQ_COST_PER_PLAYER P;
     RETENTION_RATE := RETENTION_RATE P;
     GROWTH_RATES_MAP := GROWTH_RATES_MAP P;
     DEFAULT_GROWTH_AFTER := DEFAULT_GROWTH_AFTER P |}.

(** The same constants with another growth-rate dictionary. *)
Definition with_growth_rates {N} (P : Params N) (g : gmap Z N) : Params N :=
  {| START_DATE := START_DATE P; MONTHS := MONTHS P;
     STARTING_PLAYERS := STARTING_PLAYERS P; AVG_DEPOSIT := AVG_DEPOSIT P;
     AVG_BET := AVG_BET P; WAGER_MULTIPLIER := WAGER_MULTIPLIER P;
     CASHBACK_RATE := CASHBACK_RATE P; HOUSE_EDGE := HOUSE_EDGE P;
     RAKEBACK_RATE := RAKEBACK_RATE P; CAP_RATE := CAP_RATE P;
     ACQ_COST_PER_PLAYER := ACQ_COST_PER_PLAYER P;
     RETENTION_RATE := RETENTION_RATE P;
     GROWTH_RATES_MAP := g;
     DEFAULT_GROWTH_AFTER := DEFAULT_GROWTH_AFTER P |}.

(** A schedule of one month in which the players shrink by half. *)
Definition shrinking_month : Params Q :=
  with_months (with_growth_rates defaults {[ 1%Z := -0.5 ]}) 1.

(** The calendar days of the month that starts on [d]. *)
Definition month_dates (d : date) : list date :=
  mkdate (year d) (month d) <$> seqZ 1 (month_days (year d) (month d)).


(** * Properties *)

(** ** Exact rational arithmetic *)

Ltac unfold_num :=
  change (@nadd Q Q_number) with Qplus in *;
  change (@nsub Q Q_number) with Qminus in *;
  change (@nmul Q Q_number) with Qmult in *;
  change (@ndiv Q Q_number) with Qdiv in *;
  change (@nltb Q Q_number) with Qltb in *;
  change (@of_int Q Q_number) with inject_Z in *;
  change (@num0 Q Q_number) with 0%Q in *;
  change (@num1 Q Q_number) with 1%Q in *.

Lemma Qltb_lt (a b : Q) : Qltb a b = true <-> (a < b)%Q.
Proof.
  unfold Qltb. rewrite Qlt_alt. destruct (a ?= b)%Q; intuition congruence.
Qed.

Lemma Qltb_ge (a b : Q) : Qltb a b = false <-> (b <= a)%Q.
Proof.
  rewrite <- not_true_iff_false, Qltb_lt. split.
  - apply Qnot_lt_le.
  - apply Qle_not_lt.
Qed.

Lemma py_max_cases (a b : Q) :
  (a < b /\ py_max a b = b)%Q \/ (b <= a /\ py_max a b = a)%Q.
Proof.
  unfold py_max; unfold_num. destruct (Qltb a b) eqn:E.
  - left. split; [by apply Qltb_lt | done].
  - right. split; [by apply Qltb_ge | done].
Qed.

Lemma py_min_cases (a b : Q) :
  (b < a /\ py_min a b = b)%Q \/ (a <= b /\ py_min a b = a)%Q.
Proof.
  unfold py_min; unfold_num. destruct (Qltb b a) eqn:E.
  - left. split; [by apply Qltb_lt | done].
  - right. split; [by apply Qltb_ge | done].
Qed.

Lemma py_max_Qmax (a b : Q) : (py_max a b == Qmax a b)%Q.
Proof.
  destruct (py_max_cases a b) as [[Hlt ->]|[Hle ->]].
  - symmetry. apply Q.max_r. by apply Qlt_le_weak.
  - symmetry. by apply Q.max_l.
Qed.

Lemma py_min_Qmin (a b : Q) : (py_min a b == Qmin a b)%Q.
Proof.
  destruct (py_min_cases a b) as [[Hlt ->]|[Hle ->]].
  - symmetry. apply Q.min_r. by apply Qlt_le_weak.
  - symmetry. by apply Q.min_l.
Qed.

Lemma py_min_le_l (a b : Q) : (py_min a b <= a)%Q.
Proof. destruct (py_min_cases a b) as [[? ->]|[? ->]]; lra. Qed.

Lemma py_min_le_r (a b : Q) : (py_min a b <= b)%Q.
Proof. destruct (py_min_cases a b) as [[? ->]|[? ->]]; lra. Qed.

Lemma py_min_nonneg (a b : Q) : (0 <= a -> 0 <= b -> 0 <= py_min a b)%Q.
Proof. destruct (py_min_cases a b) as [[? ->]|[? ->]]; lra. Qed.

Lemma py_max_nonneg_l (b : Q) : (0 <= py_max 0 b)%Q.
Proof. destruct (py_max_cases 0 b) as [[? ->]|[? ->]]; lra. Qed.

Lemma py_max_nonneg_r (a : Q) : (0 <= py_max a 0)%Q.
Proof. destruct (py_max_cases a 0) as [[? ->]|[? ->]]; lra. Qed.

(** ** Calendar *)

Lemma month_days_range (y m : Z) :
  (1 <= m <= 12)%Z -> (28 <= month_days y m <= 31)%Z.
Proof.
  intros Hm. unfold month_days.
  assert (m = 1 \/ m = 2 \/ m = 3 \/ m = 4 \/ m = 5 \/ m = 6 \/ m = 7
          \/ m = 8 \/ m = 9 \/ m = 10 \/ m = 11 \/ m = 12)%Z as Hc by lia.
  destruct (isleap y);
    decompose [or] Hc; subst m; simpl; lia.
Qed.

Lemma add_months_month (d : date) (i : Z) :
  (1 <= month (add_months d i) <= 12)%Z.
Proof.
  unfold add_months; simpl.
  pose proof (Z.mod_pos_bound (month d - 1 + i) 12). lia.
Qed.

Lemma add_months_first_day (d : date) (i : Z) :
  day d = 1%Z -> day (add_months d i) = 1%Z.
Proof.
  intros Hd. unfold add_months; simpl. rewrite Hd.
  pose proof (Z.mod_pos_bound (month d - 1 + i) 12).
  pose proof (month_days_range (year d + (month d - 1 + i) / 12)
                ((month d - 1 + i) mod 12 + 1)). lia.
Qed.

Lemma get_month_starts_first_days (s : date) (n : Z) :
  Forall (fun d => (1 <= month d <= 12)%Z /\ day d = 1%Z) (get_month_starts s n).
Proof.
  unfold get_month_starts. apply Forall_fmap, Forall_forall.
  intros i _. split; [apply add_months_month | by apply add_months_first_day].
Qed.

Lemma enumerate_snd {A} (l : list A) (k : Z) : snd <$> enumerate l k = l.
Proof.
  revert k. induction l as [|x l IH]; intros k; simpl; [done|].
  by rewrite IH.
Qed.

Lemma enumerate_fst {A} (l : list A) (k : Z) :
  fst <$> enumerate l k = seqZ k (Z.of_nat (length l)).
Proof.
  revert k. induction l as [|x l IH]; intros k; simpl; [done|].
  rewrite IH, (seqZ_cons k) by lia. do 2 f_equal; lia.
Qed.

(** ** The growth models *)

Section Loop.
Context {N : Type} `{Number N}.
Variable P : Params N.

Lemma month_players_valid gm c g :
  valid_growth_model gm ->
  exists retained new_players total_players,
    month_players P gm c g = Ok (retained, new_players, total_players).
Proof.
  intros [-> | ->]; unfold month_players; simpl; eauto.
Qed.

Lemma month_players_unknown gm c g :
  gm <> "retained_plus_new" -> gm <> "simple_growth" ->
  month_players P gm c g = Raise (ValueError "Unknown growth_model").
Proof.
  intros H1 H2. unfold month_players.
  apply String.eqb_neq in H1, H2. by rewrite H1, H2.
Qed.

Lemma month_step_valid gm st i d :
  valid_growth_model gm -> exists st', month_step P gm st i d = Ok st'.
Proof.
  intros Hgm. unfold month_step.
  destruct (month_players_valid gm (current_players st)
              (get_growth_for_month P i) Hgm) as (r & n & t & ->).
  simpl. eauto.
Qed.

Lemma run_months_valid gm l :
  valid_growth_model gm -> forall st, exists st', run_months P gm st l = Ok st'.
Proof.
  intros Hgm. induction l as [|[i d] l IH]; intros st; simpl; [eauto|].
  destruct (month_step_valid gm st i d Hgm) as [st1 ->]. simpl. apply IH.
Qed.

(** Loop invariants: what one iteration preserves holds at the end. *)
Lemma run_months_invariant (I : @LoopState N -> Prop) gm :
  (forall st i d st', I st -> month_step P gm st i d = Ok st' -> I st') ->
  forall l st st', I st -> run_months P gm st l = Ok st' -> I st'.
Proof.
  intros Hstep. induction l as [|[i d] l IH]; intros st st' HI; simpl.
  - intros [= <-]. exact HI.
  - destruct (month_step P gm st i d) as [st1|e] eqn:E; simpl; [|done].
    apply IH. by eapply Hstep.
Qed.

(** An iteration appends exactly one row, for its month index and start. *)
Lemma month_step_rows gm st i d st' :
  month_step P gm st i d = Ok st' ->
  exists r, rows st' = rows st ++ [r]
            /\ m_month_index r = i /\ m_month_start r = d.
Proof.
  unfold month_step.
  destruct (month_players P gm _ _) as [[[ret new] tot]|e]; simpl; [|done].
  intros [= <-]. simpl. eauto.
Qed.

Lemma run_months_rows gm l : forall st st',
  run_months P gm st l = Ok st' ->
  exists new, rows st' = rows st ++ new
              /\ (fun r => (m_month_index r, m_month_start r)) <$> new = l.
Proof.
  induction l as [|[i d] l IH]; intros st st'; simpl.
  - intros [= <-]. exists []. by rewrite app_nil_r.
  - destruct (month_step P gm st i d) as [st1|e] eqn:E; simpl; [|done].
    intros Hrun. destruct (month_step_rows _ _ _ _ _ E) as (r & Hr & Hi & Hd).
    destruct (IH _ _ Hrun) as (new & Hnew & Hl).
    exists (r :: new). split.
    + rewrite Hnew, Hr, <- app_assoc. done.
    + by rewrite fmap_cons, Hi, Hd, Hl.
Qed.

(** The monthly table is what the loop leaves in [rows]. *)
Lemma monthly_rows_run gm m :
  monthly_rows P gm = Ok m <->
  exists st, run_months P gm (initial_state P)
               (enumerate (get_month_starts (START_DATE P) (MONTHS P)) 1) = Ok st
             /\ m = rows st.
Proof.
  unfold monthly_rows. destruct (run_months _ _ _ _) as [st|e]; simpl.
  - split; [intros [= <-]; eauto | intros (st' & [= <-] & ->); done].
  - split; [done | intros (st' & ? & _); done].
Qed.

Lemma monthly_rows_valid gm :
  valid_growth_model gm -> exists m, monthly_rows P gm = Ok m.
Proof.
  intros Hgm. unfold monthly_rows.
  destruct (run_months_valid gm (enumerate (get_month_starts (START_DATE P) (MONTHS P)) 1)
              Hgm (initial_state P)) as [st ->].
  simpl. eauto.
Qed.

(** The rows of the monthly table carry the month indices [1, 2, ...] and
    the month starts, in order. *)
Lemma monthly_rows_index_start gm m :
  monthly_rows P gm = Ok m ->
  m_month_index <$> m = seqZ 1 (Z.of_nat (length m))
  /\ m_month_start <$> m = get_month_starts (START_DATE P) (MONTHS P)
  /\ length m = Z.to_nat (MONTHS P).
Proof.
  intros (st & Hrun & ->)%monthly_rows_run.
  apply run_months_rows in Hrun as (new & -> & Hnew). simpl.
  assert (m_month_start <$> new = get_month_starts (START_DATE P) (MONTHS P)) as Hs.
  { rewrite <- (enumerate_snd (get_month_starts _ _) 1), <- Hnew, <- list_fmap_compose.
    done. }
  assert (length new = Z.to_nat (MONTHS P)) as Hlen.
  { rewrite <- (length_fmap m_month_start), Hs. unfold get_month_starts.
    by rewrite length_fmap, length_seqZ. }
  split; [|done].
  rewrite <- (length_fmap m_month_start new), Hs.
  rewrite <- enumerate_fst, <- Hnew, <- list_fmap_compose. done.
Qed.

Lemma daily_of_month_nonempty (r : MonthRecord N) :
  (1 <= month (m_month_start r) <= 12)%Z -> daily_of_month r <> [].
Proof.
  intros Hm. unfold daily_of_month.
  pose proof (month_days_range (year (m_month_start r)) _ Hm).
  rewrite seqZ_cons by lia. done.
Qed.

Lemma monthly_rows_month_valid gm m :
  monthly_rows P gm = Ok m ->
  Forall (fun r => (1 <= month (m_month_start r) <= 12)%Z
                   /\ day (m_month_start r) = 1%Z) m.
Proof.
  intros (_ & Hs & _)%monthly_rows_index_start.
  pose proof (get_month_starts_first_days (START_DATE P) (MONTHS P)) as Hf.
  rewrite <- Hs in Hf. by apply Forall_fmap in Hf.
Qed.

Lemma daily_list_nonempty gm m :
  (0 < MONTHS P)%Z -> monthly_rows P gm = Ok m -> daily_list m <> [].
Proof.
  intros Hn Hm. pose proof (monthly_rows_month_valid _ _ Hm) as Hv.
  apply monthly_rows_index_start in Hm as (_ & _ & Hlen).
  destruct m as [|r m]; simpl in Hlen; [lia|].
  apply Forall_cons in Hv as [[Hr _] _].
  unfold daily_list. simpl. intros [E _]%app_eq_nil.
  by apply daily_of_month_nonempty in E.
Qed.

Lemma simulate_monthly gm t :
  simulate P gm = Ok t <-> monthly_rows P gm = Ok (monthly_df t)
    /\ daily_list (monthly_df t) <> []
    /\ daily_df t = add_week_start <$> daily_list (monthly_df t)
    /\ weekly_df t = groupby_week_sum (daily_df t).
Proof.
  unfold simulate. destruct (monthly_rows P gm) as [m|e]; simpl.
  - unfold add_week_start_column.
    destruct (daily_list m) as [|x dl] eqn:E; simpl.
    + split; [done|]. intros ([= ->] & Hne & _). by rewrite E in Hne.
    + split.
      * intros [= <-]. simpl. by rewrite E.
      * intros ([= ->] & _ & Hd & Hw). destruct t as [tm tw td]; simpl in *.
        by rewrite Hw, Hd, E.
  - split; [done | intros [? _]; done].
Qed.

Lemma simulate_valid gm :
  valid_growth_model gm -> (0 < MONTHS P)%Z -> exists t, simulate P gm = Ok t.
Proof.
  intros Hgm Hn. destruct (monthly_rows_valid gm Hgm) as [m Hm].
  pose proof (daily_list_nonempty _ _ Hn Hm) as Hne.
  unfold simulate, add_week_start_column. rewrite Hm. simpl.
  destruct (daily_list m); [done|]. simpl. eauto.
Qed.
End Loop.

(** A check that evaluates to [true] on the binary64 run holds of the
    tables that run returns. *)
Lemma run_binary64_ok (gm : string) (chk : Tables float -> bool) :
  run_binary64 gm chk = true ->
  exists t, simulate defaults_binary64 gm = Ok t /\ chk t = true.
Proof.
  unfold run_binary64. destruct (simulate defaults_binary64 gm) as [t|e]; [eauto|done].
Qed.

(** ** Rows appended by the loop *)

Section Rows.
Context {N : Type} `{Number N}.
Variable P : Params N.

Lemma month_step_row gm st i d st' :
  month_step P gm st i d = Ok st' ->
  exists r, month_row P gm st i d r st'.
Proof.
  unfold month_step.
  destruct (month_players P gm _ _) as [[[ret new] tot]|e] eqn:E; simpl; [|done].
  intros [= <-]. eexists. constructor; simpl; try reflexivity. exact E.
Qed.

(** A property of rows that every iteration establishes for the row it
    appends, and that may depend on a property of the state that every
    iteration preserves, holds of every row of the monthly table. *)
Lemma run_months_rows_Forall (I : @LoopState N -> Prop)
    (R : MonthRecord N -> Prop) gm :
  (forall st i d r st', I st -> month_row P gm st i d r st' -> I st' /\ R r) ->
  forall l st st',
    I st -> Forall R (rows st) -> run_months P gm st l = Ok st' ->
    I st' /\ Forall R (rows st').
Proof.
  intros Hstep l st st' HI HR Hrun.
  apply (run_months_invariant P (fun s => I s /\ Forall R (rows s)) gm)
    with (l := l) (st := st); [|done|done].
  clear st st' HI HR Hrun. intros st i d st' [HI HR] Hs.
  destruct (month_step_row _ _ _ _ _ Hs) as [r Hr].
  destruct (Hstep _ _ _ _ _ HI Hr) as [HI' HRr]. split; [done|].
  rewrite (mr_rows _ _ _ _ _ _ _ Hr). apply Forall_app. split; [done|].
  by constructor.
Qed.

Lemma monthly_rows_Forall (I : @LoopState N -> Prop)
    (R : MonthRecord N -> Prop) gm m :
  (forall st i d r st', I st -> month_row P gm st i d r st' -> I st' /\ R r) ->
  I (initial_state P) -> monthly_rows P gm = Ok m -> Forall R m.
Proof.
  intros Hstep HI (st & Hrun & ->)%monthly_rows_run.
  eapply run_months_rows_Forall in Hrun as [_ HR]; eauto.
Qed.
End Rows.

(** ** The recurrence over exact rationals *)

Lemma defaults_nonneg : nonneg_params defaults.
Proof.
  constructor; try (vm_compute; discriminate).
  unfold defaults, GROWTH_RATES_MAP.
  repeat (apply map_Forall_insert_2; [vm_compute; discriminate|]).
  apply map_Forall_empty.
Defined.

Lemma get_growth_nonneg P i : nonneg_params P -> 0 <= get_growth_for_month P i.
Proof.
  intros HP. unfold get_growth_for_month.
  destruct (GROWTH_RATES_MAP P !! i) as [g|] eqn:E.
  - exact (nn_growth_rates P HP i g E).
  - destruct (3 <? i)%Z; simpl; apply (nn_default_growth P HP).
Qed.

Lemma initial_state_ok P : nonneg_params P -> state_ok P (initial_state P).
Proof.
  intros HP. constructor; simpl; unfold_num; try lra.
  apply (nn_starting_players P HP).
Qed.

Lemma month_players_nonneg P gm c g ret new tot :
  nonneg_params P -> 0 <= c -> 0 <= g ->
  month_players P gm c g = Ok (ret, new, tot) ->
  0 <= ret /\ 0 <= new /\ 0 <= tot.
Proof.
  intros HP Hc Hg. unfold month_players.
  pose proof (nn_retention_rate P HP) as Hr.
  destruct (String.eqb gm "retained_plus_new").
  - intros [= <- <- <-]. unfold_num.
    pose proof (Qmult_le_0_compat _ _ Hc Hr).
    pose proof (Qmult_le_0_compat _ _ Hc Hg). repeat split; lra.
  - destruct (String.eqb gm "simple_growth"); [|done].
    intros [= <- <- <-]. repeat split.
    + unfold_num. by apply Qmult_le_0_compat.
    + apply py_max_nonneg_r.
    + unfold_num. apply Qmult_le_0_compat; lra.
Qed.

Lemma month_row_ok P gm st i d r st' :
  nonneg_params P -> state_ok P st -> month_row P gm st i d r st' ->
  state_ok P st' /\ row_nonneg r
  /\ m_lifetime_cap_used r <= m_lifetime_cap r
  /\ lifetime_cap_used st <= m_lifetime_cap_used r.
Proof.
  intros HP [Hc Hd Hu Hcap] Hr.
  destruct Hr as [_ Hcp' Hld' Hlu' _ _ Hg _ Hpl Hdep Hld Hlc Hrb Hw Hgr Hcb Hrk He Ha Hlu Hra Hac _].
  pose proof (get_growth_nonneg P i HP) as Hgi. rewrite <- Hg in Hgi.
  destruct (month_players_nonneg _ _ _ _ _ _ _ HP Hc Hgi Hpl) as (Hret & Hnew & Htot).
  destruct HP as [_ Havg Hwm Hcr Hhe Hrr Hcapr Hacq _ _ _].
  unfold CASHBACK_PER_WAGER_FRAC, RAKEBACK_PER_WAGER_FRAC in *. unfold_num.
  assert (0 <= m_deposits r) as Hdep0
    by (rewrite Hdep; by apply Qmult_le_0_compat).
  assert (0 <= m_lifetime_deposits r) as Hld0 by (rewrite Hld; lra).
  assert (0 <= m_deposits r * CAP_RATE P) as Hdc by (by apply Qmult_le_0_compat).
  assert (0 <= m_lifetime_cap r) as Hlc0
    by (rewrite Hlc; by apply Qmult_le_0_compat).
  assert (lifetime_cap_used st <= m_lifetime_cap r) as Hroom
    by (rewrite Hlc, Hld; lra).
  assert (0 <= m_total_wagering r) as Hw0
    by (rewrite Hw; by apply Qmult_le_0_compat).
  assert (0 <= m_expected_cashback r) as Hcb0
    by (rewrite Hcb; apply Qmult_le_0_compat; [done|]; by apply Qmult_le_0_compat).
  assert (0 <= m_expected_rakeback r) as Hrk0
    by (rewrite Hrk; apply Qmult_le_0_compat; [done|]; by apply Qmult_le_0_compat).
  assert (0 <= m_expected_total_cashrake r) as He0 by (rewrite He; lra).
  assert (0 <= m_remaining_cap_before r) as Hrb0
    by (rewrite Hrb; apply py_max_nonneg_l).
  assert (m_remaining_cap_before r == m_lifetime_cap r - lifetime_cap_used st) as Hrbv.
  { rewrite Hrb. destruct (py_max_cases 0 (m_lifetime_cap r - lifetime_cap_used st))
      as [[? ->]|[? ->]]; lra. }
  assert (0 <= m_actual_cashrake_paid r) as Ha0
    by (rewrite Ha; by apply py_min_nonneg).
  assert (m_actual_cashrake_paid r <= m_remaining_cap_before r) as Har
    by (rewrite Ha; apply py_min_le_r).
  assert (m_lifetime_cap_used r <= m_lifetime_cap r) as Hlu_le
    by (rewrite Hlu; lra).
  repeat split.
  - by rewrite Hcp'.
  - by rewrite Hld'.
  - rewrite Hlu', Hlu. lra.
  - rewrite Hlu', Hld', <- Hlc. done.
  - done.
  - done.
  - done.
  - done.
  - done.
  - done.
  - done.
  - done.
  - done.
  - done.
  - done.
  - rewrite Hlu. lra.
  - rewrite Hra. apply py_max_nonneg_l.
  - done.
  - rewrite Hgr. by apply Qmult_le_0_compat.
  - rewrite Hac. by apply Qmult_le_0_compat.
  - done.
  - rewrite Hlu. lra.
Qed.

Lemma nondecreasing_snoc f l x :
  nondecreasing f l -> Forall (fun r => f r <= f x) l ->
  nondecreasing f (l ++ [x]).
Proof.
  intros Hl Hx i j r1 r2 Hij H1 H2.
  destruct (decide (j < length l)%nat) as [Hj|Hj].
  - rewrite lookup_app_l in H1, H2 by lia. by apply (Hl i j).
  - assert (r2 = x) as ->.
    { rewrite lookup_app_r in H2 by lia.
      destruct (j - length l)%nat as [|k]; simpl in H2; [congruence|].
      by rewrite lookup_nil in H2. }
    destruct (decide (i < length l)%nat) as [Hi|Hi].
    + rewrite lookup_app_l in H1 by lia.
      rewrite Forall_forall in Hx. apply Hx.
      eapply list_elem_of_lookup_2, H1.
    + assert (r1 = x) as ->.
      { rewrite lookup_app_r in H1 by lia.
        destruct (i - length l)%nat as [|k]; simpl in H1; [congruence|].
        by rewrite lookup_nil in H1. }
      lra.
Qed.

Lemma cap_state_step P gm st i d st' :
  nonneg_params P -> cap_state P st -> month_step P gm st i d = Ok st' ->
  cap_state P st'.
Proof.
  intros HP [Hok Hs Hb] Hstep.
  destruct (month_step_row _ _ _ _ _ _ Hstep) as [r Hr].
  destruct (month_row_ok _ _ _ _ _ _ _ HP Hok Hr) as (Hok' & _ & _ & Hmono).
  pose proof (mr_rows _ _ _ _ _ _ _ Hr) as Hrows.
  pose proof (mr_lifetime_cap_used_st _ _ _ _ _ _ _ Hr) as Hused.
  constructor; [done| |]; rewrite Hrows.
  - apply nondecreasing_snoc; [done|].
    eapply Forall_impl; [exact Hb|]. simpl. intros x Hx. lra.
  - rewrite Hused. apply Forall_app. split.
    + eapply Forall_impl; [exact Hb|]. simpl. intros x Hx. lra.
    + constructor; [lra | constructor].
Qed.

(** ** The first month *)

Section FirstMonth.
Context {N : Type} `{Number N}.
Variable P : Params N.

Lemma first_month gm t :
  (0 < MONTHS P)%Z -> simulate P gm = Ok t ->
  exists st1, month_step P gm (initial_state P) 1 (first_month_start P) = Ok st1
              /\ head (monthly_df t) = head (rows st1).
Proof.
  intros Hm (Hrows & _)%simulate_monthly.
  apply monthly_rows_run in Hrows as (st & Hrun & Hst).
  unfold get_month_starts in Hrun. rewrite seqZ_cons in Hrun by done.
  rewrite fmap_cons in Hrun. simpl in Hrun.
  fold (first_month_start P) in Hrun.
  destruct (month_step P gm (initial_state P) 1 (first_month_start P))
    as [st1|e] eqn:E; simpl in Hrun; [|done].
  exists st1. split; [done|].
  destruct (month_step_rows _ _ _ _ _ _ E) as (r & Hr & _).
  destruct (run_months_rows _ _ _ _ _ Hrun) as (new & Hnew & _).
  rewrite Hst, Hnew, Hr. done.
Qed.
End FirstMonth.

(** ** The capped payout *)

(** C1. For either growth model, [simulate] returns its tables, and in
    every row of the monthly table the cashrake actually paid is the
    minimum of the expected total cashrake and of the cap remaining before
    the payment; it is therefore bounded by each of the two.  This holds
    over the rationals for all constants, and in the binary64 run of the
    script. *)
Theorem actual_cashrake_paid_is_min (P : Params Q) (gm : string) :
  valid_growth_model gm -> (0 < MONTHS P)%Z ->
  (exists t, simulate P gm = Ok t /\
     Forall (fun r =>
       m_actual_cashrake_paid r
         = py_min (m_expected_total_cashrake r) (m_remaining_cap_before r)
       /\ m_actual_cashrake_paid r
          == Qmin (m_expected_total_cashrake r) (m_remaining_cap_before r)
       /\ m_actual_cashrake_paid r <= m_expected_total_cashrake r
       /\ m_actual_cashrake_paid r <= m_remaining_cap_before r) (monthly_df t))
  /\ (exists t, simulate defaults_binary64 gm = Ok t
        /\ forallb paid_is_min_b (monthly_df t) = true).
Proof.
  intros Hgm Hn. split.
  - destruct (simulate_valid P gm Hgm Hn) as [t Ht]. exists t.
    split; [done|]. apply simulate_monthly in Ht as (Hm & _).
    eapply (monthly_rows_Forall P (fun _ => True)); [|done|exact Hm].
    intros st i d r st' _ Hr. split; [done|].
    rewrite (mr_actual_cashrake_paid _ _ _ _ _ _ _ Hr).
    split; [done|]. split; [apply py_min_Qmin|].
    split; [apply py_min_le_l | apply py_min_le_r].
  - destruct Hgm as [-> | ->];
      apply (run_binary64_ok _ (fun t => forallb paid_is_min_b (monthly_df t)));
      vm_compute; reflexivity.
Qed.

Lemma actual_cashrake_paid_is_min_witness :
  exists t, simulate defaults "simple_growth" = Ok t /\
    Forall (fun r =>
      m_actual_cashrake_paid r
        = py_min (m_expected_total_cashrake r) (m_remaining_cap_before r)
      /\ m_actual_cashrake_paid r
         == Qmin (m_expected_total_cashrake r) (m_remaining_cap_before r)
      /\ m_actual_cashrake_paid r <= m_expected_total_cashrake r
      /\ m_actual_cashrake_paid r <= m_remaining_cap_before r) (monthly_df t).
Proof.
  apply (actual_cashrake_paid_is_min defaults "simple_growth").
  - right. reflexivity.
  - reflexivity.
Defined.

(** C2. Under non-negative constants and for either growth model, the
    [lifetime_cap_used] column of the monthly table never decreases from a
    month to a later one, never exceeds the [lifetime_cap] of its month
    (the lifetime deposits times the cap rate), and the cap remaining
    after the payment is [max(0, lifetime_cap - lifetime_cap_used)].  This
    holds over the rationals, and in the binary64 run of the script. *)
Theorem lifetime_cap_used_monotone_bounded (P : Params Q) (gm : string) :
  nonneg_params P -> valid_growth_model gm -> (0 < MONTHS P)%Z ->
  (exists t, simulate P gm = Ok t /\
     nondecreasing m_lifetime_cap_used (monthly_df t) /\
     Forall (fun r =>
       m_lifetime_cap r = m_lifetime_deposits r * CAP_RATE P
       /\ m_lifetime_cap_used r <= m_lifetime_cap r
       /\ m_remaining_cap_after r
          = py_max 0 (m_lifetime_cap r - m_lifetime_cap_used r)
       /\ m_remaining_cap_after r
          == Qmax 0 (m_lifetime_cap r - m_lifetime_cap_used r)) (monthly_df t))
  /\ (exists t, simulate defaults_binary64 gm = Ok t
        /\ nondecreasing_b (m_lifetime_cap_used <$> monthly_df t) = true
        /\ forallb cap_respected_b (monthly_df t) = true).
Proof.
  intros HP Hgm Hn. split.
  - destruct (simulate_valid P gm Hgm Hn) as [t Ht]. exists t.
    split; [done|]. apply simulate_monthly in Ht as (Hm & _). split.
    + apply monthly_rows_run in Hm as (st & Hrun & ->).
      apply (run_months_invariant P (cap_state P) gm) in Hrun.
      * apply (cs_sorted _ _ Hrun).
      * intros s i d s' Hs Hstep. by eapply cap_state_step.
      * constructor; [by apply initial_state_ok | | constructor].
        intros i j r1 r2 _ H1. simpl in H1. by rewrite lookup_nil in H1.
    + eapply (monthly_rows_Forall P (state_ok P));
        [|by apply initial_state_ok|exact Hm].
      intros st i d r st' Hst Hr.
      destruct (month_row_ok _ _ _ _ _ _ _ HP Hst Hr) as (Hst' & _ & Hle & _).
      split; [done|].
      rewrite (mr_remaining_cap_after _ _ _ _ _ _ _ Hr).
      split; [apply (mr_lifetime_cap _ _ _ _ _ _ _ Hr)|].
      split; [done|]. split; [done|]. apply py_max_Qmax.
  - assert (run_binary64 gm (fun t =>
              nondecreasing_b (m_lifetime_cap_used <$> monthly_df t)
              && forallb cap_respected_b (monthly_df t)) = true) as Hrun
      by (destruct Hgm as [-> | ->]; vm_compute; reflexivity).
    apply run_binary64_ok in Hrun as (t & Ht & [H1 H2]%andb_true_iff). eauto.
Qed.

Lemma lifetime_cap_used_monotone_bounded_witness :
  exists t, simulate defaults "retained_plus_new" = Ok t /\
    nondecreasing m_lifetime_cap_used (monthly_df t) /\
    Forall (fun r =>
      m_lifetime_cap r = m_lifetime_deposits r * CAP_RATE defaults
      /\ m_lifetime_cap_used r <= m_lifetime_cap r
      /\ m_remaining_cap_after r
         = py_max 0 (m_lifetime_cap r - m_lifetime_cap_used r)
      /\ m_remaining_cap_after r
         == Qmax 0 (m_lifetime_cap r - m_lifetime_cap_used r)) (monthly_df t).
Proof.
  apply (lifetime_cap_used_monotone_bounded defaults "retained_plus_new").
  - exact defaults_nonneg.
  - left. reflexivity.
  - reflexivity.
Defined.

(** ** The first month of the default run *)

Lemma default_first_month_start : first_month_start defaults = mkdate 2025 11 1.
Proof. reflexivity. Qed.

Lemma binary64_first_month_start :
  first_month_start defaults_binary64 = mkdate 2025 11 1.
Proof. reflexivity. Qed.

(** C7. Under the constants of the script and the [retained_plus_new]
    model, the first row of the monthly table has growth parameter 3.0,
    600 retained players, 3000 new players and 3600 players in total; this
    holds over the rationals and for the binary64 run alike. *)
Theorem month1_retained_plus_new :
  (exists t r, simulate defaults "retained_plus_new" = Ok t
     /\ head (monthly_df t) = Some r
     /\ m_month_index r = 1%Z
     /\ m_growth_param r == 3.0
     /\ m_retained_players r == 600
     /\ m_new_players r == 3000
     /\ m_total_players r == 3600)
  /\ (exists t r, simulate defaults_binary64 "retained_plus_new" = Ok t
     /\ head (monthly_df t) = Some r
     /\ m_month_index r = 1%Z
     /\ m_growth_param r = 3%float
     /\ m_retained_players r = 600%float
     /\ m_new_players r = 3000%float
     /\ m_total_players r = 3600%float).
Proof.
  split.
  - destruct (simulate_valid defaults "retained_plus_new") as [t Ht];
      [by left|done|].
    destruct (first_month defaults _ t eq_refl Ht) as (st1 & Hstep & Hhead).
    rewrite default_first_month_start in Hstep.
    vm_compute in Hstep. injection Hstep as <-.
    exists t. eexists. split; [done|]. split; [exact Hhead|].
    repeat split.
  - destruct (simulate_valid defaults_binary64 "retained_plus_new") as [t Ht];
      [by left|done|].
    destruct (first_month defaults_binary64 _ t eq_refl Ht) as (st1 & Hstep & Hhead).
    rewrite binary64_first_month_start in Hstep.
    vm_compute in Hstep. injection Hstep as <-.
    exists t. eexists. split; [done|]. split; [exact Hhead|].
    repeat split.
Qed.

(** C8. Under the same constants and the [simple_growth] model, the first
    row of the monthly table has 1000 * (1 + 3.0) = 4000 players in total,
    600 retained players and max(4000 - 600, 0) = 3400 new players; this
    holds over the rationals and for the binary64 run alike. *)
Theorem month1_simple_growth :
  (exists t r, simulate defaults "simple_growth" = Ok t
     /\ head (monthly_df t) = Some r
     /\ m_month_index r = 1%Z
     /\ m_total_players r == 1000 * (1 + 3.0)
     /\ m_total_players r == 4000
     /\ m_retained_players r == 600
     /\ m_new_players r == Qmax (4000 - 600) 0
     /\ m_new_players r == 3400)
  /\ (exists t r, simulate defaults_binary64 "simple_growth" = Ok t
     /\ head (monthly_df t) = Some r
     /\ m_month_index r = 1%Z
     /\ m_total_players r = 4000%float
     /\ m_retained_players r = 600%float
     /\ m_new_players r = 3400%float).
Proof.
  split.
  - destruct (simulate_valid defaults "simple_growth") as [t Ht];
      [by right|done|].
    destruct (first_month defaults _ t eq_refl Ht) as (st1 & Hstep & Hhead).
    rewrite default_first_month_start in Hstep.
    vm_compute in Hstep. injection Hstep as <-.
    exists t. eexists. split; [done|]. split; [exact Hhead|].
    repeat split.
  - destruct (simulate_valid defaults_binary64 "simple_growth") as [t Ht];
      [by right|done|].
    destruct (first_month defaults_binary64 _ t eq_refl Ht) as (st1 & Hstep & Hhead).
    rewrite binary64_first_month_start in Hstep.
    vm_compute in Hstep. injection Hstep as <-.
    exists t. eexists. split; [done|]. split; [exact Hhead|].
    repeat split.
Qed.

(** ** Signs *)

(** C10. Under non-negative constants and for either growth model, every
    field of every row of the monthly table other than the net profit is
    non-negative, over the rationals and in the binary64 run of the
    script.  The net profit may be negative: under the constants of the
    script and the [retained_plus_new] model it is -42384 in the first
    month, over the rationals and in the binary64 run alike. *)
Theorem fields_nonneg_except_net_profit (P : Params Q) (gm : string) :
  nonneg_params P -> valid_growth_model gm -> (0 < MONTHS P)%Z ->
  (exists t, simulate P gm = Ok t /\ Forall row_nonneg (monthly_df t))
  /\ (exists t, simulate defaults_binary64 gm = Ok t
        /\ forallb row_nonneg_b (monthly_df t) = true)
  /\ (exists t r, simulate defaults "retained_plus_new" = Ok t
        /\ head (monthly_df t) = Some r
        /\ m_net_profit r == -42384 /\ m_net_profit r < 0)
  /\ (exists t r, simulate defaults_binary64 "retained_plus_new" = Ok t
        /\ head (monthly_df t) = Some r
        /\ m_net_profit r = (-42384)%float
        /\ PrimFloat.ltb (m_net_profit r) 0 = true).
Proof.
  intros HP Hgm Hn. split; [|split; [|split]].
  - destruct (simulate_valid P gm Hgm Hn) as [t Ht]. exists t.
    split; [done|]. apply simulate_monthly in Ht as (Hm & _).
    eapply (monthly_rows_Forall P (state_ok P)); [|by apply initial_state_ok|exact Hm].
    intros st i d r st' Hst Hr.
    destruct (month_row_ok _ _ _ _ _ _ _ HP Hst Hr) as (Hst' & Hnn & _). done.
  - destruct Hgm as [-> | ->];
      apply (run_binary64_ok _ (fun t => forallb row_nonneg_b (monthly_df t)));
      vm_compute; reflexivity.
  - destruct (simulate_valid defaults "retained_plus_new") as [t Ht];
      [by left|done|].
    destruct (first_month defaults _ t eq_refl Ht) as (st1 & Hstep & Hhead).
    rewrite default_first_month_start in Hstep.
    vm_compute in Hstep. injection Hstep as <-.
    exists t. eexists. split; [done|]. split; [exact Hhead|].
    repeat split.
  - destruct (simulate_valid defaults_binary64 "retained_plus_new") as [t Ht];
      [by left|done|].
    destruct (first_month defaults_binary64 _ t eq_refl Ht) as (st1 & Hstep & Hhead).
    rewrite binary64_first_month_start in Hstep.
    vm_compute in Hstep. injection Hstep as <-.
    exists t. eexists. split; [done|]. split; [exact Hhead|].
    repeat split.
Qed.

Lemma fields_nonneg_except_net_profit_witness :
  exists t, simulate defaults "simple_growth" = Ok t
            /\ Forall row_nonneg (monthly_df t).
Proof.
  apply (fields_nonneg_except_net_profit defaults "simple_growth").
  - exact defaults_nonneg.
  - right. reflexivity.
  - reflexivity.
Defined.

(** ** Unknown growth model *)

(** C5. Called with a growth model other than the two known ones,
    [simulate] raises [ValueError] in the computation of the very first
    month and returns no table; the command line refuses such a value
    while parsing its arguments, with exit status 2, before [simulate] is
    run. *)
Theorem unknown_growth_model_aborts {N} `{Number N} (P : Params N) (gm : string) :
  gm <> "retained_plus_new" -> gm <> "simple_growth" -> (0 < MONTHS P)%Z ->
  month_step P gm (initial_state P) 1 (first_month_start P)
    = Raise (ValueError "Unknown growth_model")
  /\ monthly_rows P gm = Raise (ValueError "Unknown growth_model")
  /\ simulate P gm = Raise (ValueError "Unknown growth_model")
  /\ (forall t, simulate P gm <> Ok t)
  /\ parse_args (Some gm) = SystemExit 2%Z
  /\ main P (Some gm) = SystemExit 2%Z.
Proof.
  intros H1 H2 Hn.
  assert (month_step P gm (initial_state P) 1 (first_month_start P)
          = Raise (ValueError "Unknown growth_model")) as Hstep.
  { unfold month_step. by rewrite month_players_unknown. }
  assert (monthly_rows P gm = Raise (ValueError "Unknown growth_model")) as Hm.
  { unfold monthly_rows, get_month_starts. rewrite seqZ_cons by done.
    rewrite fmap_cons. simpl. fold (first_month_start P). by rewrite Hstep. }
  assert (simulate P gm = Raise (ValueError "Unknown growth_model")) as Hs.
  { unfold simulate. by rewrite Hm. }
  assert (parse_args (Some gm) = SystemExit 2%Z) as Hp.
  { unfold parse_args, growth_model_choices. simpl.
    apply String.eqb_neq in H1, H2. by rewrite H1, H2. }
  repeat split; try done.
  - intros t. by rewrite Hs.
  - unfold main. by rewrite Hp.
Qed.

Lemma unknown_growth_model_aborts_witness :
  month_step defaults "linear" (initial_state defaults) 1 (first_month_start defaults)
    = Raise (ValueError "Unknown growth_model")
  /\ monthly_rows defaults "linear" = Raise (ValueError "Unknown growth_model")
  /\ simulate defaults "linear" = Raise (ValueError "Unknown growth_model")
  /\ (forall t, simulate defaults "linear" <> Ok t)
  /\ parse_args (Some "linear") = SystemExit 2%Z
  /\ main defaults (Some "linear") = SystemExit 2%Z.
Proof.
  apply (unknown_growth_model_aborts defaults "linear").
  - discriminate.
  - discriminate.
  - reflexivity.
Defined.

(** ** Growth parameter *)

(** C6. With a growth-rate dictionary on the keys 1, 2 and 3, the growth
    parameter of each of these months is the value stored for it, and that
    of every month from the fourth on is the default rate, whatever the
    three stored values are.  For the constants of the script these are
    3.0, 1.5, 0.5 and 0.35. *)
Theorem get_growth_for_month_lookup {N} `{Number N} (P : Params N) (v1 v2 v3 : N) :
  GROWTH_RATES_MAP P = {[ 1%Z := v1; 2%Z := v2; 3%Z := v3 ]} ->
  get_growth_for_month P 1 = v1
  /\ get_growth_for_month P 2 = v2
  /\ get_growth_for_month P 3 = v3
  /\ (forall idx, (4 <= idx)%Z -> get_growth_for_month P idx = DEFAULT_GROWTH_AFTER P)
  /\ get_growth_for_month defaults 1 = 3.0
  /\ get_growth_for_month defaults 2 = 1.5
  /\ get_growth_for_month defaults 3 = 0.5
  /\ (forall idx, (4 <= idx)%Z -> get_growth_for_month defaults idx = 0.35).
Proof.
  assert (forall (M : Type) (Q' : Params M) (a b c : M) idx,
            GROWTH_RATES_MAP Q' = {[ 1%Z := a; 2%Z := b; 3%Z := c ]} ->
            (4 <= idx)%Z -> get_growth_for_month Q' idx = DEFAULT_GROWTH_AFTER Q')
    as Hdefault.
  { intros M Q' a b c idx Hmap Hidx. unfold get_growth_for_month. rewrite Hmap.
    rewrite !lookup_insert_ne, lookup_singleton_ne by lia.
    destruct (3 <? idx)%Z eqn:E; [done|]. apply Z.ltb_ge in E. lia. }
  intros Hmap. repeat split; try reflexivity.
  - unfold get_growth_for_month. rewrite Hmap. by rewrite lookup_insert_eq.
  - unfold get_growth_for_month. rewrite Hmap.
    by rewrite lookup_insert_ne, lookup_insert_eq by lia.
  - unfold get_growth_for_month. rewrite Hmap.
    by rewrite !lookup_insert_ne, lookup_singleton_eq by lia.
  - intros idx Hidx. by eapply Hdefault.
  - intros idx Hidx. by eapply (Hdefault Q defaults).
Qed.

Lemma get_growth_for_month_lookup_witness :
  get_growth_for_month defaults_binary64 1 = 3%float
  /\ get_growth_for_month defaults_binary64 2 = 1.5%float
  /\ get_growth_for_month defaults_binary64 3 = 0.5%float
  /\ (forall idx, (4 <= idx)%Z ->
        get_growth_for_month defaults_binary64 idx
        = DEFAULT_GROWTH_AFTER defaults_binary64)
  /\ get_growth_for_month defaults 1 = 3.0
  /\ get_growth_for_month defaults 2 = 1.5
  /\ get_growth_for_month defaults 3 = 0.5
  /\ (forall idx, (4 <= idx)%Z -> get_growth_for_month defaults idx = 0.35).
Proof.
  apply (get_growth_for_month_lookup defaults_binary64 3%float 1.5%float 0.5%float).
  reflexivity.
Defined.

(** ** Ordinals and weeks *)

Lemma date_eqb_eq (a b : date) : date_eqb a b = true <-> a = b.
Proof.
  destruct a as [y1 m1 d1], b as [y2 m2 d2]. unfold date_eqb; simpl.
  rewrite !andb_true_iff, !Z.eqb_eq. split.
  - intros [[-> ->] ->]. done.
  - intros [= -> -> ->]. done.
Qed.

Lemma date_lt_irrefl (a : date) : ~ date_lt a a.
Proof.
  unfold date_lt, date_ltb.
  rewrite !orb_true_iff, !andb_true_iff, !orb_true_iff, !andb_true_iff,
    !Z.ltb_lt, !Z.eqb_eq. lia.
Qed.

Lemma date_lt_trans (a b c : date) : date_lt a b -> date_lt b c -> date_lt a c.
Proof.
  unfold date_lt, date_ltb.
  rewrite !orb_true_iff, !andb_true_iff, !orb_true_iff, !andb_true_iff,
    !Z.ltb_lt, !Z.eqb_eq. lia.
Qed.

Lemma date_lt_total (a b : date) :
  date_eqb a b = false -> date_ltb a b = false -> date_lt b a.
Proof.
  unfold date_lt, date_ltb, date_eqb.
  rewrite !orb_false_iff, !andb_false_iff, !orb_false_iff, !andb_false_iff.
  rewrite !orb_true_iff, !andb_true_iff, !orb_true_iff, !andb_true_iff.
  rewrite !Z.ltb_lt, !Z.eqb_eq, !Z.ltb_ge, !Z.eqb_neq. lia.
Qed.

Lemma date_lt_neq (a b : date) : date_lt a b -> a <> b.
Proof. intros H ->. by apply date_lt_irrefl in H. Qed.

Lemma days_before_month_succ (y m : Z) :
  (1 <= m <= 12)%Z ->
  days_before_month y (m + 1) = (days_before_month y m + month_days y m)%Z.
Proof.
  intros Hm. unfold days_before_month.
  replace (m + 1 - 1)%Z with ((m - 1) + 1)%Z by lia.
  rewrite seqZ_app by lia. rewrite fmap_app, fold_right_app.
  replace (1 + (m - 1))%Z with m by lia.
  rewrite (seqZ_cons m 1), seqZ_nil by lia. simpl.
  generalize (month_days y m). intros k.
  induction (month_days y <$> seqZ 1 (m - 1)) as [|a l IH]; simpl; lia.
Qed.

Lemma days_before_year_succ (y : Z) :
  days_before_year (y + 1)
  = (days_before_year y + 365 + (if isleap y then 1 else 0))%Z.
Proof.
  unfold days_before_year, isleap. simpl.
  replace (y + 1 - 1)%Z with y by lia.
  destruct (y mod 4 =? 0)%Z eqn:E4; destruct (y mod 100 =? 0)%Z eqn:E100;
    destruct (y mod 400 =? 0)%Z eqn:E400; simpl;
    rewrite ?Z.eqb_eq, ?Z.eqb_neq in *;
    Z.div_mod_to_equations; lia.
Qed.

Lemma days_in_year (y : Z) :
  days_before_month y 13 = (365 + (if isleap y then 1 else 0))%Z.
Proof.
  unfold days_before_month, month_days. destruct (isleap y); reflexivity.
Qed.

Lemma toordinal_prev_day (d : date) :
  valid_date d -> toordinal (prev_day d) = (toordinal d - 1)%Z /\ valid_date (prev_day d).
Proof.
  intros [Hm Hd]. unfold prev_day.
  destruct (1 <? day d)%Z eqn:E1.
  - apply Z.ltb_lt in E1. unfold toordinal, valid_date; simpl. lia.
  - apply Z.ltb_ge in E1. destruct (1 <? month d)%Z eqn:E2.
    + apply Z.ltb_lt in E2. unfold toordinal, valid_date; simpl.
      pose proof (days_before_month_succ (year d) (month d - 1)) as Hs.
      replace (month d - 1 + 1)%Z with (month d) in Hs by lia.
      pose proof (month_days_range (year d) (month d - 1)). lia.
    + apply Z.ltb_ge in E2. unfold toordinal, valid_date; simpl.
      assert (month d = 1%Z) as -> by lia.
      pose proof (days_before_year_succ (year d - 1)) as Hy.
      replace (year d - 1 + 1)%Z with (year d) in Hy by lia.
      pose proof (days_in_year (year d - 1)) as Hd13.
      pose proof (days_before_month_succ (year d - 1) 12) as H12.
      change (12 + 1)%Z with 13%Z in H12.
      change (month_days (year d - 1) 12) with 31%Z in *.
      change (days_before_month (year d) 1) with 0%Z.
      lia.
Qed.

Lemma toordinal_iter_prev_day (k : nat) (d : date) :
  valid_date d ->
  toordinal (Nat.iter k prev_day d) = (toordinal d - Z.of_nat k)%Z
  /\ valid_date (Nat.iter k prev_day d).
Proof.
  intros Hd. induction k as [|k [IH1 IH2]]; simpl; [split; [lia|done]|].
  destruct (toordinal_prev_day _ IH2) as [H1 H2]. split; [lia|done].
Qed.

(** The week start of a date is the Monday on or before it, at most six
    days back. *)
Lemma week_start_of_monday (d : date) :
  valid_date d ->
  valid_date (week_start_of d)
  /\ weekday (week_start_of d) = 0%Z
  /\ toordinal (week_start_of d) = (toordinal d - weekday d)%Z
  /\ (toordinal (week_start_of d) <= toordinal d <= toordinal (week_start_of d) + 6)%Z.
Proof.
  intros Hd. unfold week_start_of.
  destruct (toordinal_iter_prev_day (Z.to_nat (weekday d)) d Hd) as [Ho Hv].
  pose proof (Z.mod_pos_bound (toordinal d + 6) 7) as Hw. fold (weekday d) in Hw.
  rewrite Z2Nat.id in Ho by lia.
  split; [done|]. split; [|split; [done|lia]].
  unfold weekday at 1. rewrite Ho. unfold weekday.
  Z.div_mod_to_equations. lia.
Qed.

Lemma month_cases (m : Z) :
  (1 <= m <= 12)%Z ->
  (m = 1 \/ m = 2 \/ m = 3 \/ m = 4 \/ m = 5 \/ m = 6 \/ m = 7
   \/ m = 8 \/ m = 9 \/ m = 10 \/ m = 11 \/ m = 12)%Z.
Proof. lia. Qed.

(** The days before a month, as a table. *)
Lemma days_before_month_table (y m : Z) :
  (1 <= m <= 12)%Z ->
  days_before_month y m
  = (match m with
     | 1 => 0 | 2 => 31 | 3 => 59 | 4 => 90 | 5 => 120 | 6 => 151 | 7 => 181
     | 8 => 212 | 9 => 243 | 10 => 273 | 11 => 304 | _ => 334
     end + (if (2 <? m) && isleap y then 1 else 0))%Z.
Proof.
  intros Hm%month_cases. unfold days_before_month, month_days.
  destruct (isleap y); decompose [or] Hm; subst m; reflexivity.
Qed.

Lemma toordinal_year_bounds (d : date) :
  valid_date d ->
  (days_before_year (year d) < toordinal d <= days_before_year (year d + 1))%Z.
Proof.
  intros [Hm Hd]. unfold toordinal.
  rewrite days_before_year_succ, (days_before_month_table _ _ Hm).
  unfold month_days in Hd. apply month_cases in Hm.
  destruct (isleap (year d)); decompose [or] Hm; clear Hm;
    match goal with E : month d = _ |- _ => rewrite E in * end; simpl in *; lia.
Qed.

Lemma days_before_year_mono (y1 y2 : Z) :
  (y1 <= y2)%Z -> (days_before_year y1 <= days_before_year y2)%Z.
Proof.
  intros Hy. unfold days_before_year. Z.div_mod_to_equations. lia.
Qed.

(** On calendar dates the order of the fields is the order of the days. *)
Lemma date_lt_toordinal (a b : date) :
  valid_date a -> valid_date b -> date_lt a b -> (toordinal a < toordinal b)%Z.
Proof.
  intros Ha Hb. unfold date_lt, date_ltb.
  rewrite !orb_true_iff, !andb_true_iff, !orb_true_iff, !andb_true_iff,
    !Z.ltb_lt, !Z.eqb_eq.
  intros [Hy|[Hy [Hm|[Hm Hd]]]].
  - pose proof (toordinal_year_bounds a Ha). pose proof (toordinal_year_bounds b Hb).
    pose proof (days_before_year_mono (year a + 1) (year b)). lia.
  - destruct Ha as [Ha1 Ha2], Hb as [Hb1 Hb2]. unfold toordinal. rewrite Hy in *.
    rewrite (days_before_month_table _ _ Ha1), (days_before_month_table _ _ Hb1).
    unfold month_days in Ha2, Hb2. apply month_cases in Ha1, Hb1.
    destruct (isleap (year b)); decompose [or] Ha1; clear Ha1;
      match goal with E : month a = _ |- _ => rewrite E in * end;
      decompose [or] Hb1; clear Hb1;
      match goal with E : month b = _ |- _ => rewrite E in * end; simpl in *; lia.
  - unfold toordinal. rewrite Hy, Hm. lia.
Qed.

Lemma sorted_dates_by_ordinal (l : list date) :
  Forall valid_date l -> StronglySorted date_lt l ->
  StronglySorted (fun a b => (toordinal a < toordinal b)%Z) l.
Proof.
  induction 1 as [|d l Hd Hl IH]; [constructor|].
  intros [Hall Hs]%StronglySorted_cons. apply StronglySorted_cons.
  split; [|by apply IH].
  rewrite Forall_forall in Hall, Hl. apply Forall_forall. intros k Hk.
  apply date_lt_toordinal; [done|by apply Hl|by apply Hall].
Qed.

(** ** Daily disaggregation *)

Lemma Qsum_cons (a : Q) (l : list Q) : Qsum (a :: l) = a + Qsum l.
Proof. reflexivity. Qed.

(** Linear arithmetic with the sums taken as unknowns. *)
Ltac sum_lra :=
  repeat match goal with
         | |- context [Qsum ?l] => generalize (Qsum l); intro
         end;
  lra.

Lemma Qsum_app (l1 l2 : list Q) : Qsum (l1 ++ l2) == Qsum l1 + Qsum l2.
Proof.
  induction l1 as [|a l1 IH].
  - change (Qsum ([] ++ l2)) with (Qsum l2). change (Qsum []) with 0. sum_lra.
  - change ((a :: l1) ++ l2) with (a :: (l1 ++ l2)). rewrite !Qsum_cons, IH. sum_lra.
Qed.

Lemma Zsum_app (l1 l2 : list Z) : Zsum (l1 ++ l2) = (Zsum l1 + Zsum l2)%Z.
Proof.
  induction l1 as [|a l1 IH]; simpl; [done|]. rewrite IH. lia.
Qed.

Lemma Qsum_const {A} (v : Q) (l : list A) :
  Qsum ((fun _ => v) <$> l) == inject_Z (Z.of_nat (length l)) * v.
Proof.
  induction l as [|a l IH].
  - change (0 == 0 * v). lra.
  - rewrite fmap_cons, Qsum_cons, IH. cbn [length].
    rewrite Nat2Z.inj_succ. unfold Z.succ. rewrite inject_Z_plus.
    change (inject_Z 1) with 1. generalize (inject_Z (Z.of_nat (length l))).
    intros k. lra.
Qed.

Section Daily.
Context {N : Type} `{Number N}.

Lemma daily_of_month_dates (r : MonthRecord N) :
  d_date <$> daily_of_month r
  = mkdate (year (m_month_start r)) (month (m_month_start r))
      <$> seqZ 1 (month_days (year (m_month_start r)) (month (m_month_start r))).
Proof.
  unfold daily_of_month. by rewrite <- list_fmap_compose.
Qed.

Lemma daily_of_month_length (r : MonthRecord N) :
  length (daily_of_month r)
  = Z.to_nat (month_days (year (m_month_start r)) (month (m_month_start r))).
Proof.
  unfold daily_of_month. by rewrite length_fmap, length_seqZ.
Qed.

Lemma daily_of_month_fields (r : MonthRecord N) :
  let n := month_days (year (m_month_start r)) (month (m_month_start r)) in
  Forall (fun x =>
    d_month_index x = m_month_index r
    /\ forall c, daily_col c x = (month_col c r * (num1 / of_int n))%num)
    (daily_of_month r).
Proof.
  intros n. unfold daily_of_month. apply Forall_fmap, Forall_forall.
  intros d _. simpl. split; [done|]. intros c. by destruct c.
Qed.

Lemma daily_of_month_valid_dates (r : MonthRecord N) :
  (1 <= month (m_month_start r) <= 12)%Z ->
  Forall (fun x => valid_date (d_date x)) (daily_of_month r).
Proof.
  intros Hm. unfold daily_of_month. apply Forall_fmap, Forall_forall.
  intros d [i [-> Hd]%lookup_seqZ]%list_elem_of_lookup_1.
  unfold valid_date. simpl. lia.
Qed.
End Daily.

Lemma daily_of_month_sum (r : MonthRecord Q) (c : FlowCol) :
  (1 <= month (m_month_start r) <= 12)%Z ->
  let n := month_days (year (m_month_start r)) (month (m_month_start r)) in
  Forall (fun x => daily_col c x == month_col c r / inject_Z n) (daily_of_month r)
  /\ Qsum (daily_col c <$> daily_of_month r) == month_col c r.
Proof.
  intros Hm n.
  pose proof (month_days_range (year (m_month_start r)) _ Hm) as Hn. fold n in Hn.
  assert (~ inject_Z n == 0) as Hn0.
  { unfold Qeq. simpl. lia. }
  pose proof (daily_of_month_fields r) as Hf. fold n in Hf. simpl in Hf.
  split.
  - eapply Forall_impl; [exact Hf|]. simpl. intros x [_ Hx]. rewrite Hx.
    unfold_num. by field.
  - assert (daily_col c <$> daily_of_month r
            = (fun _ => month_col c r * (1 / inject_Z n)) <$> daily_of_month r) as ->.
    { apply Forall_fmap_ext. eapply Forall_impl; [exact Hf|]. simpl.
      intros x [_ Hx]. by rewrite Hx. }
    rewrite Qsum_const, daily_of_month_length. fold n.
    rewrite Z2Nat.id by lia. by field.
Qed.

Lemma filter_all {A} (Q' : A -> Prop) `{!forall x, Decision (Q' x)} (l : list A) :
  Forall Q' l -> filter Q' l = l.
Proof.
  induction 1 as [|x l Hx _ IH]; [done|].
  rewrite filter_cons_True by done. by rewrite IH.
Qed.

Lemma filter_none {A} (Q' : A -> Prop) `{!forall x, Decision (Q' x)} (l : list A) :
  Forall (fun x => ~ Q' x) l -> filter Q' l = [].
Proof.
  induction 1 as [|x l Hx _ IH]; [done|].
  by rewrite filter_cons_False.
Qed.

Section MonthBlocks.
Context {N : Type} `{Number N}.

Lemma daily_list_cons (r : MonthRecord N) (m : list (MonthRecord N)) :
  daily_list (r :: m) = daily_of_month r ++ daily_list m.
Proof. reflexivity. Qed.

Lemma daily_list_month_index (m : list (MonthRecord N)) :
  Forall (fun x => d_month_index x ∈ m_month_index <$> m) (daily_list m).
Proof.
  induction m as [|r m IH]; [constructor|].
  rewrite daily_list_cons, fmap_cons. apply Forall_app. split.
  - eapply Forall_impl; [apply daily_of_month_fields|]. simpl.
    intros x [-> _]. by left.
  - eapply Forall_impl; [exact IH|]. simpl. intros x Hx. by right.
Qed.

(** The rows of the daily table tagged with the index of a month are the
    days generated for that month. *)
Lemma filter_month_index (m : list (MonthRecord N)) (r : MonthRecord N) :
  NoDup (m_month_index <$> m) -> r ∈ m ->
  filter (fun x => d_month_index x = m_month_index r) (daily_list m)
  = daily_of_month r.
Proof.
  induction m as [|r' m IH]; intros Hnd Hr; [by apply elem_of_nil in Hr|].
  rewrite fmap_cons in Hnd. apply NoDup_cons in Hnd as [Hr' Hnd].
  rewrite daily_list_cons, filter_app.
  apply elem_of_cons in Hr as [->|Hr].
  - rewrite filter_all, filter_none, app_nil_r; [done| |].
    + eapply Forall_impl; [apply daily_list_month_index|]. simpl.
      intros x Hx E. by rewrite E in Hx.
    + eapply Forall_impl; [apply daily_of_month_fields|]. simpl. by intros x [-> _].
  - rewrite filter_none, IH; [done..|].
    eapply Forall_impl; [apply daily_of_month_fields|]. simpl.
    intros x [-> _] E. apply Hr'. rewrite E. by apply list_elem_of_fmap_2.
Qed.

Lemma simulate_daily_rows (P : Params N) gm t :
  simulate P gm = Ok t -> row <$> daily_df t = daily_list (monthly_df t).
Proof.
  intros (_ & _ & -> & _)%simulate_monthly.
  rewrite <- list_fmap_compose. apply list_fmap_id.
Qed.
End MonthBlocks.

(** C3. For either growth model, the daily table is the concatenation, in
    month order, of the days of each month.  The rows tagged with the
    index of a month are one per calendar day of that month, from day 1 to
    the number of days of the month (28 to 31, February having 29 days
    exactly in leap years); every flow column of every such row is the
    month's value divided by that number of days, and the sum of the
    column over these rows is the month's value.  In the binary64 run of
    the script the daily table has 365 rows, and each share and each of
    these sums is the quotient, resp. the month's value, up to a relative
    error of 1e-12. *)
Theorem daily_records_split_month (P : Params Q) (gm : string) :
  valid_growth_model gm -> (0 < MONTHS P)%Z ->
  (exists t, simulate P gm = Ok t
    /\ row <$> daily_df t = monthly_df t ≫= daily_of_month
    /\ Forall (fun r =>
         let y := year (m_month_start r) in
         let m := month (m_month_start r) in
         let n := month_days y m in
         let days :=
           filter (fun x => d_month_index x = m_month_index r) (row <$> daily_df t) in
         (28 <= n <= 31)%Z
         /\ (m = 2%Z -> n = if isleap y then 29%Z else 28%Z)
         /\ days = daily_of_month r
         /\ length days = Z.to_nat n
         /\ d_date <$> days = mkdate y m <$> seqZ 1 n
         /\ forall c,
              Forall (fun x => daily_col c x == month_col c r / inject_Z n) days
              /\ Qsum (daily_col c <$> days) == month_col c r) (monthly_df t))
  /\ (exists t, simulate defaults_binary64 gm = Ok t
        /\ length (daily_df t) = 365%nat
        /\ forallb daily_shares_close_b (monthly_df t) = true
        /\ forallb daily_sums_close_b (monthly_df t) = true).
Proof.
  intros Hgm Hn. split.
  - destruct (simulate_valid P gm Hgm Hn) as [t Ht]. exists t.
    split; [done|]. pose proof (simulate_daily_rows P gm t Ht) as Hd.
    split; [done|]. apply simulate_monthly in Ht as (Hm & _).
    pose proof (monthly_rows_month_valid P gm _ Hm) as Hv.
    pose proof (monthly_rows_index_start P gm _ Hm) as (Hidx & _).
    assert (NoDup (m_month_index <$> monthly_df t)) as Hnd
      by (rewrite Hidx; apply NoDup_seqZ).
    apply Forall_forall. intros r Hr.
    rewrite Forall_forall in Hv. destruct (Hv r Hr) as [Hmonth _].
    cbv zeta. rewrite Hd, (filter_month_index _ r Hnd Hr).
    split; [by apply month_days_range|].
    split; [intros ->; unfold month_days; by destruct (isleap _)|].
    split; [done|]. split; [apply daily_of_month_length|].
    split; [apply daily_of_month_dates|].
    intros c. by apply daily_of_month_sum.
  - assert (run_binary64 gm (fun t =>
              Nat.eqb (length (daily_df t)) 365
              && (forallb daily_shares_close_b (monthly_df t)
                  && forallb daily_sums_close_b (monthly_df t))) = true) as Hrun
      by (destruct Hgm as [-> | ->]; vm_compute; reflexivity).
    apply run_binary64_ok
      in Hrun as (t & Ht & [H1%Nat.eqb_eq [H2 H3]%andb_true_iff]%andb_true_iff).
    eauto.
Qed.

(** In binary64 the daily shares are not always the correctly rounded
    quotients: equality with the quotient holds up to rounding only. *)
Lemma binary64_daily_share_is_rounded :
  exists t, simulate defaults_binary64 "retained_plus_new" = Ok t
            /\ existsb daily_share_rounded_b (monthly_df t) = true.
Proof.
  apply (run_binary64_ok _ (fun t => existsb daily_share_rounded_b (monthly_df t))).
  vm_compute. reflexivity.
Qed.

Lemma daily_records_split_month_witness :
  exists t, simulate defaults "retained_plus_new" = Ok t
    /\ row <$> daily_df t = monthly_df t ≫= daily_of_month
    /\ Forall (fun r =>
         let y := year (m_month_start r) in
         let m := month (m_month_start r) in
         let n := month_days y m in
         let days :=
           filter (fun x => d_month_index x = m_month_index r) (row <$> daily_df t) in
         (28 <= n <= 31)%Z
         /\ (m = 2%Z -> n = if isleap y then 29%Z else 28%Z)
         /\ days = daily_of_month r
         /\ length days = Z.to_nat n
         /\ d_date <$> days = mkdate y m <$> seqZ 1 n
         /\ forall c,
              Forall (fun x => daily_col c x == month_col c r / inject_Z n) days
              /\ Qsum (daily_col c <$> days) == month_col c r) (monthly_df t).
Proof.
  apply (daily_records_split_month defaults "retained_plus_new").
  - left. reflexivity.
  - reflexivity.
Defined.

(** ** The schedule of months *)

Section Schedule.
Context {N : Type} `{Number N}.

Lemma get_month_starts_lookup (s : date) (n : Z) (k : nat) (d : date) :
  get_month_starts s n !! k = Some d ->
  (Z.of_nat k < n)%Z
  /\ d = mkdate (year s + (month s - 1 + Z.of_nat k) / 12)
           ((month s - 1 + Z.of_nat k) mod 12 + 1) 1.
Proof.
  unfold get_month_starts. rewrite list_lookup_fmap.
  destruct (seqZ 0 n !! k) as [i|] eqn:E; simpl; [|done].
  apply lookup_seqZ in E as [-> Hk]. intros [= <-]. split; [done|].
  unfold add_months; simpl. rewrite Z.add_0_l. f_equal.
  pose proof (Z.mod_pos_bound (month s - 1 + Z.of_nat k) 12).
  pose proof (month_days_range (year s + (month s - 1 + Z.of_nat k) / 12)
                ((month s - 1 + Z.of_nat k) mod 12 + 1)). lia.
Qed.

Lemma month_schedule (P : Params N) (gm : string) (s : date) :
  valid_growth_model gm -> (0 < MONTHS P)%Z -> valid_date s ->
  exists t, simulate (with_start_date P s) gm = Ok t
    /\ length (monthly_df t) = Z.to_nat (MONTHS P)
    /\ (forall (k : nat) r, monthly_df t !! k = Some r ->
          m_month_index r = (Z.of_nat k + 1)%Z
          /\ m_month_start r
             = mkdate (year s + (month s - 1 + Z.of_nat k) / 12)
                 ((month s - 1 + Z.of_nat k) mod 12 + 1) 1)
    /\ (exists r1, monthly_df t !! 0%nat = Some r1
          /\ m_month_start r1 = mkdate (year s) (month s) 1
          /\ let days := filter (fun x => d_month_index x = 1%Z) (row <$> daily_df t) in
             d_date <$> days
               = mkdate (year s) (month s) <$> seqZ 1 (month_days (year s) (month s))
             /\ take (length days) (row <$> daily_df t) = days).
Proof.
  intros Hgm Hn [Hmonth _].
  destruct (simulate_valid (with_start_date P s) gm Hgm Hn) as [t Ht]. exists t.
  split; [done|]. pose proof (simulate_daily_rows _ gm t Ht) as Hd.
  apply simulate_monthly in Ht as (Hm & _).
  pose proof (monthly_rows_index_start _ gm _ Hm) as (Hidx & Hstart & Hlen).
  simpl in Hstart, Hlen.
  assert (forall (k : nat) r, monthly_df t !! k = Some r ->
            m_month_index r = (Z.of_nat k + 1)%Z
            /\ m_month_start r
               = mkdate (year s + (month s - 1 + Z.of_nat k) / 12)
                   ((month s - 1 + Z.of_nat k) mod 12 + 1) 1) as Hrows.
  { intros k r Hk. split.
    - assert ((m_month_index <$> monthly_df t) !! k = Some (m_month_index r)) as Hi
        by (by rewrite list_lookup_fmap, Hk).
      rewrite Hidx in Hi. apply lookup_seqZ in Hi as [-> _]. lia.
    - assert ((m_month_start <$> monthly_df t) !! k = Some (m_month_start r)) as Hs
        by (by rewrite list_lookup_fmap, Hk).
      rewrite Hstart in Hs. by apply get_month_starts_lookup in Hs as [_ ->]. }
  split; [done|]. split; [done|].
  destruct (monthly_df t) as [|r1 m] eqn:Em; [simpl in Hlen; lia|].
  destruct (Hrows 0%nat r1 eq_refl) as [Hi1 Hs1].
  rewrite Z.add_0_r in Hs1. rewrite Z.div_small, Z.mod_small, Z.add_0_r in Hs1 by lia.
  replace (month s - 1 + 1)%Z with (month s) in Hs1 by lia.
  exists r1. split; [done|]. split; [done|]. cbv zeta.
  assert (NoDup (m_month_index <$> r1 :: m)) as Hnd
    by (rewrite Hidx; apply NoDup_seqZ).
  assert (filter (fun x => d_month_index x = 1%Z) (row <$> daily_df t)
          = daily_of_month r1) as ->.
  { rewrite Hd, <- (filter_month_index (r1 :: m) r1 Hnd) by (by left).
    by rewrite Hi1. }
  rewrite Hd. split.
  - by rewrite daily_of_month_dates, Hs1.
  - rewrite daily_list_cons. by rewrite take_app_length.
Qed.
End Schedule.

Lemma defaults_start_date :
  with_start_date defaults (mkdate 2025 11 23) = defaults
  /\ with_start_date defaults_binary64 (mkdate 2025 11 23) = defaults_binary64.
Proof. split; reflexivity. Qed.

(** C9. Whatever the start date, the schedule is that of the calendar
    months from the month of the start date on: the row of index [k + 1]
    starts on the first day of the month [k] months after the start month,
    the rows of the daily table tagged with month 1 open the table and are
    the days of the start month from its first to its last.  For the start
    date 2025-11-23 of the script these are 2025-11-01 to 2025-11-30. *)
Theorem schedule_starts_on_first_of_month {N} `{Number N}
    (P : Params N) (gm : string) (s : date) :
  valid_growth_model gm -> (0 < MONTHS P)%Z -> valid_date s ->
  (exists t, simulate (with_start_date P s) gm = Ok t
    /\ length (monthly_df t) = Z.to_nat (MONTHS P)
    /\ (forall (k : nat) r, monthly_df t !! k = Some r ->
          m_month_index r = (Z.of_nat k + 1)%Z
          /\ m_month_start r
             = mkdate (year s + (month s - 1 + Z.of_nat k) / 12)
                 ((month s - 1 + Z.of_nat k) mod 12 + 1) 1)
    /\ (exists r1, monthly_df t !! 0%nat = Some r1
          /\ m_month_start r1 = mkdate (year s) (month s) 1
          /\ let days := filter (fun x => d_month_index x = 1%Z) (row <$> daily_df t) in
             d_date <$> days
               = mkdate (year s) (month s) <$> seqZ 1 (month_days (year s) (month s))
             /\ take (length days) (row <$> daily_df t) = days))
  /\ (exists t, simulate defaults "retained_plus_new" = Ok t
        /\ START_DATE defaults = mkdate 2025 11 23
        /\ let days := filter (fun x => d_month_index x = 1%Z) (row <$> daily_df t) in
           d_date <$> days = mkdate 2025 11 <$> seqZ 1 30
           /\ head (d_date <$> days) = Some (mkdate 2025 11 1)
           /\ last (d_date <$> days) = Some (mkdate 2025 11 30)
           /\ take 30 (row <$> daily_df t) = days).
Proof.
  intros Hgm Hn Hs. split; [by apply month_schedule|].
  destruct (month_schedule defaults "retained_plus_new" (mkdate 2025 11 23))
    as (t & Ht & _ & _ & r1 & _ & _ & Hdays & Htake).
  - by left.
  - reflexivity.
  - unfold valid_date, month_days, isleap. simpl. lia.
  - rewrite (proj1 defaults_start_date) in Ht. exists t.
    split; [done|]. split; [done|]. cbv zeta.
    change (month_days 2025 11) with 30%Z in Hdays.
    split; [exact Hdays|]. rewrite Hdays. split; [done|]. split; [done|].
    assert (length (filter (fun x => d_month_index x = 1%Z) (row <$> daily_df t))
            = 30%nat) as Hlen.
    { rewrite <- (length_fmap d_date), Hdays. reflexivity. }
    by rewrite Hlen in Htake.
Qed.

Lemma schedule_starts_on_first_of_month_witness :
  exists t, simulate (with_start_date defaults_binary64 (mkdate 2024 2 29))
              "simple_growth" = Ok t
    /\ length (monthly_df t) = 12%nat
    /\ (forall (k : nat) r, monthly_df t !! k = Some r ->
          m_month_index r = (Z.of_nat k + 1)%Z
          /\ m_month_start r
             = mkdate (2024 + (2 - 1 + Z.of_nat k) / 12)
                 ((2 - 1 + Z.of_nat k) mod 12 + 1) 1)
    /\ (exists r1, monthly_df t !! 0%nat = Some r1
          /\ m_month_start r1 = mkdate 2024 2 1
          /\ let days := filter (fun x => d_month_index x = 1%Z) (row <$> daily_df t) in
             d_date <$> days = mkdate 2024 2 <$> seqZ 1 29
             /\ take (length days) (row <$> daily_df t) = days).
Proof.
  apply (schedule_starts_on_first_of_month defaults_binary64 "simple_growth"
           (mkdate 2024 2 29)).
  - right. reflexivity.
  - reflexivity.
  - unfold valid_date, month_days, isleap. simpl. lia.
Defined.

(** ** Weekly aggregation *)

Section Groups.
Context {N : Type} `{Number N}.

Lemma group_add_key (g : WeekGroup) (x : DailyRow N) :
  g_week_start (group_add g x) = g_week_start g.
Proof. reflexivity. Qed.

Lemma group_insert_keys (x : DailyRow N) (gs : list WeekGroup) (k : date) :
  k ∈ g_week_start <$> group_insert x gs
  <-> k = week_start x \/ k ∈ g_week_start <$> gs.
Proof.
  induction gs as [|g gs IH]; simpl.
  - rewrite list_elem_of_singleton, elem_of_nil. tauto.
  - destruct (date_eqb (week_start x) (g_week_start g)) eqn:E.
    + apply date_eqb_eq in E. rewrite !fmap_cons, !elem_of_cons, group_add_key.
      rewrite E. tauto.
    + destruct (date_ltb (week_start x) (g_week_start g)).
      * rewrite !fmap_cons, !elem_of_cons. simpl. tauto.
      * rewrite !fmap_cons, !elem_of_cons, IH. tauto.
Qed.

Lemma group_insert_sorted (x : DailyRow N) (gs : list WeekGroup) :
  StronglySorted date_lt (g_week_start <$> gs) ->
  StronglySorted date_lt (g_week_start <$> group_insert x gs).
Proof.
  induction gs as [|g gs IH]; cbn [group_insert]; intros Hs.
  - repeat constructor.
  - rewrite fmap_cons in Hs. apply StronglySorted_cons in Hs as [Hall Hs].
    destruct (date_eqb (week_start x) (g_week_start g)) eqn:E.
    + rewrite fmap_cons, group_add_key. by apply StronglySorted_cons.
    + destruct (date_ltb (week_start x) (g_week_start g)) eqn:L.
      * rewrite !fmap_cons. apply StronglySorted_cons. split.
        -- constructor; [exact L|]. eapply Forall_impl; [exact Hall|].
           simpl. intros k Hk. by eapply date_lt_trans.
        -- by apply StronglySorted_cons.
      * rewrite fmap_cons. apply StronglySorted_cons. split; [|by apply IH].
        apply Forall_forall. intros k [->|Hk]%group_insert_keys.
        -- by apply date_lt_total.
        -- rewrite Forall_forall in Hall. by apply Hall.
Qed.

Lemma week_groups_snoc (df : list (DailyRow N)) (x : DailyRow N) :
  week_groups (df ++ [x]) = group_insert x (week_groups df).
Proof. unfold week_groups. by rewrite fold_left_app. Qed.

Lemma week_groups_keys (df : list (DailyRow N)) :
  StronglySorted date_lt (g_week_start <$> week_groups df)
  /\ forall k, k ∈ g_week_start <$> week_groups df <-> k ∈ week_start <$> df.
Proof.
  induction df as [|x df [IHs IHk]] using rev_ind.
  - split; [constructor|]. intros k. simpl. done.
  - rewrite week_groups_snoc. split; [by apply group_insert_sorted|].
    intros k. rewrite group_insert_keys, IHk, fmap_app, elem_of_app.
    simpl. rewrite list_elem_of_singleton. tauto.
Qed.

Lemma groupby_week_sum_key_list (df : list (DailyRow N)) :
  w_week_start <$> groupby_week_sum df = g_week_start <$> week_groups df.
Proof.
  unfold groupby_week_sum. rewrite <- list_fmap_compose.
  by apply list_fmap_ext.
Qed.

(** The weekly table has its keys in strictly increasing order, and they
    are the week starts that occur in the daily table. *)
Lemma groupby_week_sum_keys (df : list (DailyRow N)) :
  StronglySorted date_lt (w_week_start <$> groupby_week_sum df)
  /\ forall k, k ∈ w_week_start <$> groupby_week_sum df <-> k ∈ week_start <$> df.
Proof. rewrite groupby_week_sum_key_list. apply week_groups_keys. Qed.

Lemma sorted_keys_NoDup (l : list date) : StronglySorted date_lt l -> NoDup l.
Proof.
  induction l as [|k l IH]; [constructor|].
  intros [Hall Hs]%StronglySorted_cons. constructor; [|by apply IH].
  intros Hk. rewrite Forall_forall in Hall.
  by apply Hall, date_lt_irrefl in Hk.
Qed.

Lemma weekly_of_group_col (c : FlowCol) (g : @WeekGroup N) :
  weekly_col c (weekly_of_group g) = (g_acc g c).1.
Proof. by destruct c. Qed.
End Groups.

Lemma week_rows_snoc_other {N} (k : date) (df : list (DailyRow N)) (x : DailyRow N) :
  week_start x <> k -> week_rows k (df ++ [x]) = week_rows k df.
Proof.
  intros Hk. unfold week_rows. rewrite filter_app, filter_cons_False by done.
  by rewrite filter_nil, app_nil_r.
Qed.

Lemma week_rows_snoc_same {N} (df : list (DailyRow N)) (x : DailyRow N) :
  week_rows (week_start x) (df ++ [x]) = week_rows (week_start x) df ++ [x].
Proof.
  unfold week_rows. rewrite filter_app, filter_cons_True by done.
  by rewrite filter_nil.
Qed.

Section GroupSums.
Context {N : Type} `{Number N}.
Implicit Types (df : list (DailyRow N)) (x : DailyRow N) (g : @WeekGroup N).

Lemma group_ok_other df x g :
  week_start x <> g_week_start g -> group_ok df g -> group_ok (df ++ [x]) g.
Proof.
  intros Hk Hw. unfold group_ok. by rewrite week_rows_snoc_other.
Qed.

Lemma group_ok_add df x g :
  week_start x = g_week_start g -> group_ok df g ->
  group_ok (df ++ [x]) (group_add g x).
Proof.
  intros Hk [Hi Hc]. unfold group_ok. rewrite group_add_key, <- Hk.
  rewrite <- Hk in Hi, Hc. split.
  - rewrite week_rows_snoc_same, fmap_app, Zsum_app. simpl. rewrite <- Hi. lia.
  - intros c. rewrite week_rows_snoc_same, fmap_app, fold_left_app, <- Hc.
    reflexivity.
Qed.

Lemma group_ok_new df x :
  week_rows (week_start x) df = [] -> group_ok (df ++ [x]) (group_new x).
Proof.
  intros Hk. unfold group_new. apply group_ok_add; [done|].
  unfold group_ok. cbn [g_week_start g_month_index g_acc]. by rewrite Hk.
Qed.

Lemma group_insert_ok df x (gs : list (@WeekGroup N)) :
  StronglySorted date_lt (g_week_start <$> gs) ->
  Forall (group_ok df) gs ->
  (week_start x ∉ g_week_start <$> gs -> week_rows (week_start x) df = []) ->
  Forall (group_ok (df ++ [x])) (group_insert x gs).
Proof.
  induction gs as [|w g IH]; cbn [group_insert]; intros Hs Hg Hnew.
  - constructor; [|constructor]. apply group_ok_new, Hnew, not_elem_of_nil.
  - rewrite fmap_cons in Hs. apply StronglySorted_cons in Hs as [Hall Hs].
    apply Forall_cons in Hg as [Hw Hg]. rewrite Forall_forall in Hall.
    destruct (date_eqb (week_start x) (g_week_start w)) eqn:E.
    + apply date_eqb_eq in E. constructor; [by apply group_ok_add|].
      apply Forall_forall. intros w' Hw'. rewrite Forall_forall in Hg.
      apply group_ok_other; [|by apply Hg].
      rewrite E. apply date_lt_neq, Hall. by apply list_elem_of_fmap_2.
    + assert (week_start x <> g_week_start w) as Hne.
      { intros Heq. apply date_eqb_eq in Heq. congruence. }
      destruct (date_ltb (week_start x) (g_week_start w)) eqn:L.
      * assert (forall w', w' ∈ g -> week_start x <> g_week_start w') as Hrest.
        { intros w' Hw'. apply date_lt_neq. eapply date_lt_trans; [exact L|].
          apply Hall. by apply list_elem_of_fmap_2. }
        constructor; [|constructor].
        -- apply group_ok_new, Hnew. rewrite fmap_cons, not_elem_of_cons.
           split; [done|]. intros (w' & Hk & Hw')%list_elem_of_fmap.
           by apply (Hrest w' Hw').
        -- by apply group_ok_other.
        -- apply Forall_forall. intros w' Hw'. rewrite Forall_forall in Hg.
           apply group_ok_other; [by apply Hrest | by apply Hg].
      * constructor; [by apply group_ok_other|]. apply IH; [done..|].
        intros Hk. apply Hnew. rewrite fmap_cons, not_elem_of_cons. done.
Qed.

(** The groups carry the sums of their weeks. *)
Lemma week_groups_ok df : Forall (group_ok df) (week_groups df).
Proof.
  induction df as [|x df IH] using rev_ind; [constructor|].
  rewrite week_groups_snoc.
  destruct (week_groups_keys df) as [Hs Hk].
  apply group_insert_ok; [done..|].
  intros Hx. apply filter_none, Forall_forall. intros y Hy Hyx.
  apply Hx, Hk. rewrite <- Hyx. by apply list_elem_of_fmap_2.
Qed.

(** Every row of the weekly table carries the grouped sums of the rows of
    its week. *)
Lemma groupby_week_sum_ok df :
  Forall (fun w =>
    let days := week_rows (w_week_start w) df in
    w_month_index w = Zsum ((fun x => d_month_index (row x)) <$> days)
    /\ forall c, weekly_col c w = pandas_sum ((fun x => daily_col c (row x)) <$> days))
    (groupby_week_sum df).
Proof.
  unfold groupby_week_sum. apply Forall_fmap.
  eapply Forall_impl; [apply week_groups_ok|].
  intros g [Hi Hc]. cbv zeta. split; [exact Hi|].
  intros c. rewrite weekly_of_group_col. unfold pandas_sum.
  change (w_week_start (weekly_of_group g)) with (g_week_start g).
  by rewrite Hc.
Qed.
End GroupSums.



Lemma daily_list_valid_dates {N} `{Number N} (m : list (MonthRecord N)) :
  Forall (fun r => (1 <= month (m_month_start r) <= 12)%Z) m ->
  Forall (fun x => valid_date (d_date x)) (daily_list m).
Proof.
  induction 1 as [|r m Hr _ IH]; [constructor|].
  rewrite daily_list_cons. apply Forall_app. split; [|done].
  by apply daily_of_month_valid_dates.
Qed.

(** The weekly table of a run groups its daily table by week. *)
Lemma simulate_weekly_by_week {N} `{Number N} (P : Params N) (gm : string) t :
  simulate P gm = Ok t -> weekly_by_week t.
Proof.
  intros Ht. apply simulate_monthly in Ht as (Hm & _ & Hd & Hw).
  destruct (groupby_week_sum_keys (daily_df t)) as [Hs Hk]. rewrite <- Hw in Hs, Hk.
  assert (Forall (fun x => valid_date (d_date x)) (daily_list (monthly_df t))) as Hdates.
  { apply daily_list_valid_dates.
    eapply Forall_impl; [exact (monthly_rows_month_valid P gm _ Hm)|].
    simpl. by intros r [? _]. }
  unfold weekly_by_week.
  split; [|split; [done|split; [|split; [by apply sorted_keys_NoDup|split; [done|]]]]].
  - rewrite Hd. apply Forall_fmap.
    eapply Forall_impl; [exact Hdates|]. simpl. intros x Hx.
    destruct (week_start_of_monday _ Hx) as (_ & Hmon & _ & Hrange). done.
  - apply sorted_dates_by_ordinal; [|done].
    apply Forall_forall. intros k Hkey%Hk. rewrite Hd in Hkey.
    apply list_elem_of_fmap in Hkey as (x & -> & (y & -> & Hy)%list_elem_of_fmap).
    rewrite Forall_forall in Hdates. simpl.
    by destruct (week_start_of_monday _ (Hdates y Hy)) as (Hvalid & _).
  - pose proof (groupby_week_sum_ok (daily_df t)) as Hok. rewrite <- Hw in Hok.
    apply Forall_forall. intros w Hin. rewrite Forall_forall in Hok.
    destruct (Hok w Hin) as [Hi Hc]. cbv zeta. split; [|done].
    assert (w_week_start w ∈ week_start <$> daily_df t) as Hkey
      by (by apply Hk, list_elem_of_fmap_2).
    apply list_elem_of_fmap in Hkey as (x & Hx & Hin').
    intros Hnil. assert (x ∈ week_rows (w_week_start w) (daily_df t)) as Hxin
      by (by apply list_elem_of_filter).
    rewrite Hnil in Hxin. by apply elem_of_nil in Hxin.
Qed.



(** C4, in binary64.  In the binary64 run of the script under
    [retained_plus_new], the weekly row of the week of Monday 27 April
    2026 has seven daily rows, and its [players] value is neither the
    left-to-right binary64 sum of their [players] values nor the exact
    sum of these seven numbers: it is what the compensated summation
    returns for them. *)
Lemma weekly_sum_is_rounded_in_binary64 :
  exists t w, simulate defaults_binary64 "retained_plus_new" = Ok t
    /\ w ∈ weekly_df t
    /\ w_week_start w = mkdate 2026 4 27
    /\ let days := (fun x => d_players (row x))
                     <$> week_rows (w_week_start w) (daily_df t) in
       length days = 7%nat
       /\ w_players w = pandas_sum days
       /\ PrimFloat.eqb (w_players w) (float_sum days) = false
       /\ ~ float_to_Q (w_players w) == Qsum (float_to_Q <$> days).
Proof.
  assert (run_binary64 "retained_plus_new" (fun t =>
            existsb (fun w =>
              date_eqb (w_week_start w) (mkdate 2026 4 27)
              && Nat.eqb (length (week_rows (w_week_start w) (daily_df t))) 7
              && weekly_players_rounded_b (daily_df t) w) (weekly_df t)) = true)
    as Hrun by (vm_compute; reflexivity).
  apply run_binary64_ok in Hrun as (t & Ht & (w & Hin & Hw)%existsb_exists).
  apply andb_true_iff in Hw as [[Hk%date_eqb_eq Hlen%Nat.eqb_eq]%andb_true_iff Hr].
  apply andb_true_iff in Hr as [Hne%negb_true_iff HQ%negb_true_iff].
  exists t, w. split; [done|]. split; [by apply list_elem_of_In|].
  split; [done|]. cbv zeta. split; [by rewrite length_fmap|].
  split; [|split; [done|]].
  - destruct (simulate_weekly_by_week _ _ _ Ht) as (_ & _ & _ & _ & _ & Hsum).
    rewrite Forall_forall in Hsum.
    destruct (Hsum w) as (_ & _ & Hc); [by apply list_elem_of_In|].
    exact (Hc c_players).
  - intros Heq%Qeq_bool_iff. congruence.
Qed.

(** * Further properties of the code *)

(** ** The growth-rate lookup *)

(** X1. The three branches of [get_growth_for_month] amount to a single
    dictionary lookup with the default rate as fallback, for every index
    and every dictionary: an index that is absent gets the default whether
    it is above 3 or not (zero and negative indices included), and an
    entry stored at an index above 3 is returned in place of the default. *)
Theorem get_growth_for_month_is_get {N} `{Number N} (P : Params N) (idx : Z) :
  get_growth_for_month P idx
    = default (DEFAULT_GROWTH_AFTER P) (GROWTH_RATES_MAP P !! idx)
  /\ (GROWTH_RATES_MAP P !! idx = None ->
        get_growth_for_month P idx = DEFAULT_GROWTH_AFTER P)
  /\ (forall g, GROWTH_RATES_MAP P !! idx = Some g ->
        get_growth_for_month P idx = g).
Proof.
  unfold get_growth_for_month.
  destruct (GROWTH_RATES_MAP P !! idx) as [g|] eqn:E; simpl.
  - repeat split; [done|]. by intros g' [= ->].
  - destruct (3 <? idx)%Z; repeat split; done.
Qed.

Lemma get_growth_for_month_is_get_witness :
  get_growth_for_month defaults 0 = 0.35
  /\ get_growth_for_month defaults (-4) = 0.35.
Proof.
  split.
  - destruct (get_growth_for_month_is_get defaults 0) as (_ & H & _).
    apply H. reflexivity.
  - destruct (get_growth_for_month_is_get defaults (-4)) as (_ & H & _).
    apply H. reflexivity.
Defined.

(** ** No month at all *)

(** X2. The growth model is checked inside the loop only.  When the number
    of months is zero or negative the loop body never runs: any growth
    model, known or not, yields an empty monthly table and no
    [ValueError]; [simulate] then fails on the [date] column of the empty
    daily frame, and [main] ends with that [KeyError] uncaught. *)
Theorem no_month_no_validation {N} `{Number N} (P : Params N) (gm : string) :
  (MONTHS P <= 0)%Z ->
  get_month_starts (START_DATE P) (MONTHS P) = []
  /\ monthly_rows P gm = Ok []
  /\ simulate P gm = Raise (KeyError "date")
  /\ main P None = Uncaught (KeyError "date").
Proof.
  intros Hn.
  assert (get_month_starts (START_DATE P) (MONTHS P) = []) as Hs
    by (unfold get_month_starts; by rewrite seqZ_nil).
  assert (forall g, monthly_rows P g = Ok []) as Hm
    by (intros g; unfold monthly_rows; by rewrite Hs).
  assert (forall g, simulate P g = Raise (KeyError "date")) as Hsim
    by (intros g; unfold simulate; by rewrite Hm).
  repeat split; try done.
  unfold main. simpl. by rewrite Hsim.
Qed.

Lemma no_month_no_validation_witness :
  get_month_starts (START_DATE (with_months defaults 0)) 0 = []
  /\ monthly_rows (with_months defaults 0) "linear" = Ok []
  /\ simulate (with_months defaults 0) "linear" = Raise (KeyError "date")
  /\ main (with_months defaults 0) None = Uncaught (KeyError "date").
Proof.
  apply (no_month_no_validation (with_months defaults 0) "linear").
  simpl. lia.
Defined.

(** ** The command line *)

(** X3. Whatever is passed to [--growth-model], [main] never ends with the
    [ValueError] of [simulate]: a value outside the two choices exits with
    status 2 before [simulate] is called, and every other invocation
    returns the tables of [simulate] for the chosen model, the model being
    [retained_plus_new] when the flag is absent. *)
Theorem main_returns_or_exits {N} `{Number N} (P : Params N) (flag : option string) :
  (0 < MONTHS P)%Z ->
  (forall msg, main P flag <> Uncaught (ValueError msg))
  /\ main P None = main P (Some "retained_plus_new")
  /\ ((exists gm t, valid_growth_model gm
         /\ (flag = Some gm \/ (flag = None /\ gm = "retained_plus_new"))
         /\ simulate P gm = Ok t /\ main P flag = Returned t)
      \/ (exists v, flag = Some v /\ ~ valid_growth_model v
            /\ main P flag = SystemExit 2%Z)).
Proof.
  intros Hn.
  assert (forall gm, valid_growth_model gm ->
            exists t, simulate P gm = Ok t /\ main P (Some gm) = Returned t) as Hok.
  { intros gm Hgm. destruct (simulate_valid P gm Hgm Hn) as [t Ht]. exists t.
    split; [done|]. unfold main.
    destruct Hgm as [-> | ->]; simpl; by rewrite Ht. }
  assert (main P None = main P (Some "retained_plus_new")) as Hnone by reflexivity.
  assert ((exists gm t, valid_growth_model gm
             /\ (flag = Some gm \/ (flag = None /\ gm = "retained_plus_new"))
             /\ simulate P gm = Ok t /\ main P flag = Returned t)
          \/ (exists v, flag = Some v /\ ~ valid_growth_model v
                /\ main P flag = SystemExit 2%Z)) as Hcases.
  { destruct flag as [v|].
    - destruct (decide (v = "retained_plus_new")) as [->|H1].
      { left. destruct (Hok "retained_plus_new") as (t & Ht & Hmain); [by left|].
        exists "retained_plus_new", t.
        split; [by left|]. split; [by left|]. done. }
      destruct (decide (v = "simple_growth")) as [->|H2].
      { left. destruct (Hok "simple_growth") as (t & Ht & Hmain); [by right|].
        exists "simple_growth", t.
        split; [by right|]. split; [by left|]. done. }
      right. exists v. split; [done|]. split; [by intros [?|?]|].
      unfold main, parse_args, growth_model_choices. simpl.
      apply String.eqb_neq in H1, H2. by rewrite H1, H2.
    - left. destruct (Hok "retained_plus_new") as (t & Ht & Hmain); [by left|].
      exists "retained_plus_new", t. rewrite Hnone.
      split; [by left|]. split; [by right|]. done. }
  split; [|done].
  intros msg Hmain.
  destruct Hcases as [(gm & t & _ & _ & _ & Hr)|(v & _ & _ & Hr)];
    rewrite Hr in Hmain; discriminate.
Qed.

Lemma main_returns_or_exits_witness :
  (forall msg, main defaults (Some "linear") <> Uncaught (ValueError msg))
  /\ main defaults None = main defaults (Some "retained_plus_new").
Proof.
  destruct (main_returns_or_exits defaults (Some "linear")) as (H1 & H2 & _).
  - reflexivity.
  - split; [exact H1 | exact H2].
Defined.

(** ** From one row to the next *)

Section Follow.
Context {N : Type} `{Number N}.
Variable P : Params N.

Lemma prev_row_snoc (l : list (MonthRecord N)) (r : MonthRecord N) (k : nat) :
  (k <= length l)%nat -> prev_row (l ++ [r]) k = prev_row l k.
Proof.
  intros Hk. destruct k as [|j]; [done|]. simpl.
  apply lookup_app_l. lia.
Qed.

Lemma prev_row_last (l : list (MonthRecord N)) : prev_row l (length l) = last l.
Proof.
  rewrite last_lookup. by destruct l.
Qed.

(** Every row of the monthly table is the one an iteration computes from
    what the row before it left (from the initial values, for the first). *)
Lemma monthly_rows_follow gm m :
  monthly_rows P gm = Ok m ->
  forall k r, m !! k = Some r -> row_follows P gm (prev_row m k) r.
Proof.
  intros (st & Hrun & ->)%monthly_rows_run.
  apply (run_months_invariant P (fun s =>
           (current_players s, lifetime_deposits s, lifetime_cap_used s)
             = carried P (last (rows s))
           /\ forall k r, rows s !! k = Some r ->
                          row_follows P gm (prev_row (rows s) k) r) gm)
    in Hrun as [_ Hall]; [exact Hall| |].
  - clear st Hrun. intros st i d st' [Hc Hall] Hstep.
    destruct (month_step_row P _ _ _ _ _ Hstep) as [r Hr].
    pose proof (mr_rows _ _ _ _ _ _ _ Hr) as Hrows. rewrite Hrows. split.
    + rewrite last_snoc. simpl.
      by rewrite (mr_current_players _ _ _ _ _ _ _ Hr),
        (mr_lifetime_deposits_st _ _ _ _ _ _ _ Hr),
        (mr_lifetime_cap_used_st _ _ _ _ _ _ _ Hr).
    + intros k r0 Hk.
      destruct (decide (k < length (rows st))%nat) as [Hlt|Hge].
      * rewrite lookup_app_l in Hk by done.
        rewrite prev_row_snoc by lia. by apply Hall.
      * assert (k = length (rows st)) as ->.
        { apply lookup_lt_Some in Hk. rewrite length_app in Hk. simpl in Hk. lia. }
        rewrite lookup_app_r, Nat.sub_diag in Hk by lia. injection Hk as <-.
        rewrite prev_row_snoc, prev_row_last by lia.
        exists st, st'. split; [done|].
        by rewrite (mr_month_index _ _ _ _ _ _ _ Hr), (mr_month_start _ _ _ _ _ _ _ Hr).
  - split; [done|]. intros k r Hk. simpl in Hk. by rewrite lookup_nil in Hk.
Qed.
End Follow.

Section Carry.
Context {N : Type} `{Number N}.
Variable P : Params N.

Lemma monthly_rows_index_lookup gm m (k : nat) r :
  monthly_rows P gm = Ok m -> m !! k = Some r ->
  m_month_index r = (Z.of_nat k + 1)%Z.
Proof.
  intros (Hidx & _)%monthly_rows_index_start Hk.
  assert ((m_month_index <$> m) !! k = Some (m_month_index r)) as Hi
    by (by rewrite list_lookup_fmap, Hk).
  rewrite Hidx in Hi. apply lookup_seqZ in Hi as [-> _]. lia.
Qed.

Lemma prev_row_is_Some (m : list (MonthRecord N)) (j : nat) r :
  m !! S j = Some r -> exists p, m !! j = Some p.
Proof.
  intros Hk%lookup_lt_Some. apply lookup_lt_is_Some. lia.
Qed.

Lemma fold_left_fmap_snoc {A} (f : N -> N -> N) (g : A -> N) (l : list A) (x : A) (a : N) :
  fold_left f (g <$> l ++ [x]) a = f (fold_left f (g <$> l) a) (g x).
Proof. by rewrite fmap_app, fold_left_app. Qed.
End Carry.

(** X4. The players of a month are computed from the total of the month
    before, and from the starting players for the first month: the
    retained players are that count times the retention rate, whichever
    the growth model; under [retained_plus_new] the new players are the
    count times the growth parameter and the total is their sum with the
    retained ones, under [simple_growth] the total is the count times one
    plus the growth parameter.  The growth parameter of the row at
    position [k] is the one looked up for the month index [k + 1]. *)
Theorem players_carried_forward {N} `{Number N} (P : Params N) (gm : string) :
  valid_growth_model gm -> (0 < MONTHS P)%Z ->
  exists t, simulate P gm = Ok t /\
    forall (k : nat) r, monthly_df t !! k = Some r ->
      let current :=
        match prev_row (monthly_df t) k with
        | None => STARTING_PLAYERS P
        | Some p => m_total_players p
        end in
      m_growth_model r = gm
      /\ m_growth_param r = get_growth_for_month P (Z.of_nat k + 1)
      /\ m_retained_players r = (current * RETENTION_RATE P)%num
      /\ (gm = "retained_plus_new" ->
            m_new_players r = (current * m_growth_param r)%num
            /\ m_total_players r = (m_retained_players r + m_new_players r)%num)
      /\ (gm = "simple_growth" ->
            m_total_players r = (current * (num1 + m_growth_param r))%num
            /\ m_new_players r
               = py_max (m_total_players r - m_retained_players r)%num num0).
Proof.
  intros Hgm Hn. destruct (simulate_valid P gm Hgm Hn) as [t Ht]. exists t.
  split; [done|]. apply simulate_monthly in Ht as (Hm & _).
  intros k r Hk. cbv zeta.
  destruct (monthly_rows_follow P gm _ Hm k r Hk) as (st & st' & Hc & Hr).
  pose proof (mr_players _ _ _ _ _ _ _ Hr) as Hpl.
  assert (current_players st
          = match prev_row (monthly_df t) k with
            | None => STARTING_PLAYERS P
            | Some p => m_total_players p
            end) as Hcur.
  { destruct (prev_row (monthly_df t) k); simpl in Hc; congruence. }
  rewrite Hcur in Hpl. clear Hcur Hc.
  split; [apply (mr_growth_model _ _ _ _ _ _ _ Hr)|].
  split.
  { rewrite (mr_growth_param _ _ _ _ _ _ _ Hr).
    by rewrite (monthly_rows_index_lookup P gm _ k r Hm Hk). }
  unfold month_players in Hpl.
  destruct Hgm as [-> | ->]; simpl in Hpl; injection Hpl as Hret Hnew Htot.
  - split; [done|]. split; [|done]. intros _. rewrite <- Hnew, <- Htot, <- Hret. done.
  - split; [done|]. split; [done|]. intros _.
    rewrite <- Hnew, <- Htot, <- Hret. done.
Qed.

Lemma players_carried_forward_witness :
  exists t, simulate defaults_binary64 "simple_growth" = Ok t /\
    forall (k : nat) r, monthly_df t !! k = Some r ->
      let current :=
        match prev_row (monthly_df t) k with
        | None => STARTING_PLAYERS defaults_binary64
        | Some p => m_total_players p
        end in
      m_growth_model r = "simple_growth"
      /\ m_growth_param r = get_growth_for_month defaults_binary64 (Z.of_nat k + 1)
      /\ m_retained_players r = (current * RETENTION_RATE defaults_binary64)%num
      /\ ("simple_growth" = "retained_plus_new" ->
            m_new_players r = (current * m_growth_param r)%num
            /\ m_total_players r = (m_retained_players r + m_new_players r)%num)
      /\ ("simple_growth" = "simple_growth" ->
            m_total_players r = (current * (num1 + m_growth_param r))%num
            /\ m_new_players r
               = py_max (m_total_players r - m_retained_players r)%num num0).
Proof.
  apply (players_carried_forward defaults_binary64 "simple_growth").
  - right. reflexivity.
  - reflexivity.
Defined.

(** X5. The two accumulators of the loop are running sums, added up in
    month order from zero: in the row at position [k], [lifetime_deposits]
    is the sum of the deposits of the rows up to it and
    [lifetime_cap_used] the sum of the cashrake paid in the rows up to it,
    and [lifetime_cap] is the former times the cap rate.  This holds with
    the program's own additions, in binary64 as over the rationals. *)
Theorem accumulators_are_running_sums {N} `{Number N} (P : Params N) (gm : string) :
  valid_growth_model gm -> (0 < MONTHS P)%Z ->
  exists t, simulate P gm = Ok t /\
    forall (k : nat) r, monthly_df t !! k = Some r ->
      m_lifetime_deposits r
        = fold_left nadd (m_deposits <$> take (S k) (monthly_df t)) num0
      /\ m_lifetime_cap_used r
         = fold_left nadd (m_actual_cashrake_paid <$> take (S k) (monthly_df t)) num0
      /\ m_lifetime_cap r = (m_lifetime_deposits r * CAP_RATE P)%num.
Proof.
  intros Hgm Hn. destruct (simulate_valid P gm Hgm Hn) as [t Ht]. exists t.
  split; [done|]. apply simulate_monthly in Ht as (Hm & _).
  induction k as [|j IH]; intros r Hk;
    destruct (monthly_rows_follow P gm _ Hm _ r Hk) as (st & st' & Hc & Hr);
    rewrite (take_S_r _ _ _ Hk), !fold_left_fmap_snoc;
    rewrite (mr_lifetime_deposits _ _ _ _ _ _ _ Hr),
      (mr_lifetime_cap_used _ _ _ _ _ _ _ Hr);
    (split; [|split; [|by rewrite (mr_lifetime_cap _ _ _ _ _ _ _ Hr),
                          (mr_lifetime_deposits _ _ _ _ _ _ _ Hr)]]).
  - simpl in Hc. injection Hc as _ -> _. done.
  - simpl in Hc. injection Hc as _ _ ->. done.
  - destruct (prev_row_is_Some _ _ _ Hk) as [p Hp]. simpl in Hc. rewrite Hp in Hc.
    simpl in Hc. injection Hc as _ -> _.
    destruct (IH p Hp) as (-> & _). done.
  - destruct (prev_row_is_Some _ _ _ Hk) as [p Hp]. simpl in Hc. rewrite Hp in Hc.
    simpl in Hc. injection Hc as _ _ ->.
    destruct (IH p Hp) as (_ & -> & _). done.
Qed.

Lemma accumulators_are_running_sums_witness :
  exists t, simulate defaults_binary64 "retained_plus_new" = Ok t /\
    forall (k : nat) r, monthly_df t !! k = Some r ->
      m_lifetime_deposits r
        = fold_left nadd (m_deposits <$> take (S k) (monthly_df t)) num0
      /\ m_lifetime_cap_used r
         = fold_left nadd (m_actual_cashrake_paid <$> take (S k) (monthly_df t)) num0
      /\ m_lifetime_cap r
         = (m_lifetime_deposits r * CAP_RATE defaults_binary64)%num.
Proof.
  apply (accumulators_are_running_sums defaults_binary64 "retained_plus_new").
  - left. reflexivity.
  - reflexivity.
Defined.

(** ** Checks evaluated on the binary64 run *)




Lemma forallb_all_columns (f : FlowCol -> bool) :
  forallb f all_columns = true -> forall c, f c = true.
Proof.
  rewrite forallb_forall. intros Hall c. apply Hall.
  destruct c; simpl; tauto.
Qed.

(** ** The cap, over exact rationals *)



(** X6. In every month either the expected cashrake is paid in full, or
    the payment is what was left of the cap and the cap is then used up:
    the cap remaining after the month is exactly zero.  This holds for all
    constants, of any sign. *)
Theorem paid_in_full_or_cap_exhausted (P : Params Q) (gm : string) :
  valid_growth_model gm -> (0 < MONTHS P)%Z ->
  exists t, simulate P gm = Ok t /\
    Forall (fun r =>
      (m_actual_cashrake_paid r = m_expected_total_cashrake r
       /\ m_expected_total_cashrake r <= m_remaining_cap_before r)
      \/ (m_actual_cashrake_paid r = m_remaining_cap_before r
          /\ m_remaining_cap_before r < m_expected_total_cashrake r
          /\ m_remaining_cap_after r = 0)) (monthly_df t).
Proof.
  intros Hgm Hn. destruct (simulate_valid P gm Hgm Hn) as [t Ht]. exists t.
  split; [done|]. apply simulate_monthly in Ht as (Hm & _).
  eapply (monthly_rows_Forall P (fun _ => True)); [|done|exact Hm].
  intros st i d r st' _ Hr. split; [done|].
  pose proof (mr_actual_cashrake_paid _ _ _ _ _ _ _ Hr) as Ha.
  pose proof (mr_remaining_cap_before _ _ _ _ _ _ _ Hr) as Hb.
  pose proof (mr_lifetime_cap_used _ _ _ _ _ _ _ Hr) as Hu.
  pose proof (mr_remaining_cap_after _ _ _ _ _ _ _ Hr) as Haf.
  unfold_num.
  destruct (py_min_cases (m_expected_total_cashrake r) (m_remaining_cap_before r))
    as [[Hlt Hmin]|[Hle Hmin]]; rewrite Hmin in Ha.
  - right. split; [done|]. split; [done|]. rewrite Haf.
    destruct (py_max_cases 0 (m_lifetime_cap r - lifetime_cap_used st))
      as [[? Hmax]|[? Hmax]]; rewrite Hmax in Hb;
      destruct (py_max_cases 0 (m_lifetime_cap r - m_lifetime_cap_used r))
        as [[Hpos ?]|[? ->]]; try done;
      rewrite Hu, Ha, Hb in Hpos; lra.
  - left. done.
Qed.

Lemma paid_in_full_or_cap_exhausted_witness :
  exists t, simulate defaults "retained_plus_new" = Ok t /\
    Forall (fun r =>
      (m_actual_cashrake_paid r = m_expected_total_cashrake r
       /\ m_expected_total_cashrake r <= m_remaining_cap_before r)
      \/ (m_actual_cashrake_paid r = m_remaining_cap_before r
          /\ m_remaining_cap_before r < m_expected_total_cashrake r
          /\ m_remaining_cap_after r = 0)) (monthly_df t).
Proof.
  apply (paid_in_full_or_cap_exhausted defaults "retained_plus_new").
  - left. reflexivity.
  - reflexivity.
Defined.



(** ** Revenue and payout *)





(** ** Players *)



(** ** The calendar covered by the tables *)

Lemma toordinal_day (y m d : Z) :
  toordinal (mkdate y m d) = (toordinal (mkdate y m 1) - 1 + d)%Z.
Proof. unfold toordinal. simpl. lia. Qed.

(** The month after a month starts when that month ends. *)
Lemma add_months_succ_ordinal (first : date) (i : Z) :
  day first = 1%Z ->
  toordinal (add_months first (i + 1))
  = (toordinal (add_months first i)
     + month_days (year (add_months first i)) (month (add_months first i)))%Z
  /\ date_lt (add_months first i) (add_months first (i + 1)).
Proof.
  intros Hd.
  pose proof (add_months_first_day first i Hd) as Hd1.
  pose proof (add_months_first_day first (i + 1) Hd) as Hd2.
  pose proof (add_months_month first i) as Hm1.
  destruct (add_months first i) as [y1 m1 d1] eqn:E1.
  destruct (add_months first (i + 1)) as [y2 m2 d2] eqn:E2.
  simpl in *. subst d1 d2.
  assert ((m1 < 12 /\ y2 = y1 /\ m2 = m1 + 1) \/ (m1 = 12 /\ y2 = y1 + 1 /\ m2 = 1))%Z
    as Hcase.
  { unfold add_months in E1, E2. injection E1 as Hy1 Hm1' _.
    injection E2 as Hy2 Hm2' _. Z.div_mod_to_equations. lia. }
  destruct Hcase as [(Hlt & -> & ->)|(-> & -> & ->)].
  - split.
    + unfold toordinal; simpl. rewrite (days_before_month_succ y1 m1) by lia. lia.
    + unfold date_lt, date_ltb; simpl.
      rewrite Z.eqb_refl. simpl.
      assert ((m1 <? m1 + 1)%Z = true) as -> by (apply Z.ltb_lt; lia).
      by rewrite orb_true_r.
  - split.
    + unfold toordinal; simpl.
      rewrite days_before_year_succ, (days_before_month_table y1 12) by lia.
      unfold month_days, days_before_month. simpl.
      destruct (isleap y1); simpl; lia.
    + unfold date_lt, date_ltb; simpl.
      assert ((y1 <? y1 + 1)%Z = true) as -> by (apply Z.ltb_lt; lia). done.
Qed.

Lemma add_months_ordinal_mono (first : date) (a : Z) (n : nat) :
  day first = 1%Z ->
  (toordinal (add_months first a) <= toordinal (add_months first (a + Z.of_nat n)))%Z.
Proof.
  intros Hd. induction n as [|n IH].
  - rewrite Z.add_0_r. lia.
  - replace (a + Z.of_nat (S n))%Z with (a + Z.of_nat n + 1)%Z by lia.
    destruct (add_months_succ_ordinal first (a + Z.of_nat n) Hd) as [-> _].
    pose proof (month_days_range (year (add_months first (a + Z.of_nat n)))
                  _ (add_months_month first (a + Z.of_nat n))). lia.
Qed.

Lemma month_dates_ordinals (d : date) :
  day d = 1%Z ->
  toordinal <$> month_dates d
  = seqZ (toordinal d) (month_days (year d) (month d)).
Proof.
  intros Hd. unfold month_dates. rewrite <- list_fmap_compose.
  destruct d as [y m d0]. simpl in *. subst d0.
  transitivity (Z.add (toordinal (mkdate y m 1) - 1) <$> seqZ 1 (month_days y m)).
  - apply list_fmap_ext. intros _ x _. simpl. apply toordinal_day.
  - rewrite fmap_add_seqZ. f_equal. lia.
Qed.

Lemma month_starts_ordinals (first : date) (n : nat) : forall a : Z,
  day first = 1%Z ->
  toordinal <$> ((add_months first <$> seqZ a (Z.of_nat n)) ≫= month_dates)
  = seqZ (toordinal (add_months first a))
      (toordinal (add_months first (a + Z.of_nat n)) - toordinal (add_months first a)).
Proof.
  induction n as [|n IH]; intros a Hd.
  - rewrite Z.add_0_r, Z.sub_diag. by rewrite !seqZ_nil.
  - rewrite seqZ_cons by lia.
    replace (Z.pred (Z.of_nat (S n))) with (Z.of_nat n) by lia.
    replace (Z.succ a) with (a + 1)%Z by lia.
    rewrite fmap_cons, bind_cons, fmap_app, (IH (a + 1)%Z Hd).
    rewrite month_dates_ordinals by (by apply add_months_first_day).
    destruct (add_months_succ_ordinal first a Hd) as [Hnext _].
    pose proof (month_days_range (year (add_months first a)) _
                  (add_months_month first a)) as Hmd.
    pose proof (add_months_ordinal_mono first (a + 1) n Hd) as Hmono.
    replace (a + Z.of_nat (S n))%Z with (a + 1 + Z.of_nat n)%Z by lia.
    rewrite Hnext in *.
    set (g := toordinal (add_months first a)) in *.
    set (md := month_days _ _) in *.
    set (g' := toordinal (add_months first (a + 1 + Z.of_nat n))) in *.
    replace (g' - g)%Z with (md + (g' - (g + md)))%Z by lia.
    by rewrite seqZ_app by lia.
Qed.

Lemma daily_list_dates {N} `{Number N} (m : list (MonthRecord N)) :
  d_date <$> daily_list m = (m_month_start <$> m) ≫= month_dates.
Proof.
  induction m as [|r m IH]; [done|].
  rewrite daily_list_cons, fmap_app, fmap_cons, bind_cons, IH.
  by rewrite daily_of_month_dates.
Qed.

(** X11. For a start date in a month 1 to 12 of a year 1 to 9999 and a
    count of months whose last one is not past the year 9999, where the
    calendar of the code ends, the month starts returned by
    [get_month_starts] follow one another without gap or overlap: there
    are as many as the count (none for a count of zero or a negative
    one), the first is the first day of the month of the start date,
    each is the first day of a month of a year from that of the start
    date to 9999, and each one after the first starts on the day after
    the last day of the month before it, December being followed by
    January of the next year. *)
Theorem month_starts_are_contiguous (s : date) (n : Z) :
  (1 <= month s <= 12)%Z -> (1 <= year s <= 9999)%Z ->
  (year s + (month s + n - 2) / 12 <= 9999)%Z ->
  length (get_month_starts s n) = Z.to_nat n
  /\ ((n <= 0)%Z -> get_month_starts s n = [])
  /\ ((0 < n)%Z ->
      get_month_starts s n !! 0%nat = Some (mkdate (year s) (month s) 1))
  /\ Forall (fun d =>
       day d = 1%Z /\ (1 <= month d <= 12)%Z /\ (year s <= year d <= 9999)%Z)
       (get_month_starts s n)
  /\ forall (k : nat) (d1 d2 : date),
       get_month_starts s n !! k = Some d1 ->
       get_month_starts s n !! S k = Some d2 ->
       toordinal d2 = (toordinal d1 + month_days (year d1) (month d1))%Z
       /\ date_lt d1 d2
       /\ ((month d1 < 12 /\ year d2 = year d1 /\ month d2 = month d1 + 1)
           \/ (month d1 = 12 /\ year d2 = year d1 + 1 /\ month d2 = 1))%Z.
Proof.
  intros Hm Hy Hlast. unfold get_month_starts.
  set (first := mkdate (year s) (month s) 1).
  split; [by rewrite length_fmap, length_seqZ|].
  split; [intros Hn; by rewrite seqZ_nil|].
  split.
  { intros Hn. rewrite list_lookup_fmap, (lookup_seqZ_lt 0 n 0) by lia. simpl.
    change (0 + Z.of_nat 0)%Z with 0%Z. f_equal.
    pose proof (add_months_first_day first 0 eq_refl) as Hd.
    destruct (add_months first 0) as [y m d] eqn:E. simpl in Hd. subst d.
    unfold add_months, first in E; simpl in E. injection E as Hy' Hm' _.
    rewrite Z.add_0_r in Hy', Hm'. rewrite Z.div_small in Hy' by lia.
    rewrite Z.mod_small in Hm' by lia. f_equal; lia. }
  split.
  { apply Forall_fmap, Forall_forall. intros i [Hi0 Hin]%elem_of_seqZ.
    cbv beta. change (((fun i => add_months first i) : Z -> date) i)
      with (add_months first i).
    split; [by apply add_months_first_day|].
    split; [apply add_months_month|].
    unfold add_months, first; simpl.
    assert (0 <= (month s - 1 + i) / 12)%Z by (apply Z.div_pos; lia).
    assert ((month s - 1 + i) / 12 <= (month s + n - 2) / 12)%Z
      by (apply Z.div_le_mono; lia).
    lia. }
  intros k d1 d2. rewrite !list_lookup_fmap.
  destruct (seqZ 0 n !! k) as [i|] eqn:E1; simpl; [|done].
  destruct (seqZ 0 n !! S k) as [j|] eqn:E2; simpl; [|done].
  apply lookup_seqZ in E1 as [-> _], E2 as [-> _].
  intros [= <-] [= <-].
  replace (0 + Z.of_nat (S k))%Z with (0 + Z.of_nat k + 1)%Z by lia.
  destruct (add_months_succ_ordinal first (0 + Z.of_nat k)) as [Hord Hlt]; [done|].
  split; [done|]. split; [done|].
  unfold add_months; simpl. Z.div_mod_to_equations. lia.
Qed.

Lemma month_starts_are_contiguous_witness :
  length (get_month_starts (mkdate 2025 11 23) 12) = Z.to_nat 12
  /\ ((12 <= 0)%Z -> get_month_starts (mkdate 2025 11 23) 12 = [])
  /\ ((0 < 12)%Z ->
      get_month_starts (mkdate 2025 11 23) 12 !! 0%nat = Some (mkdate 2025 11 1))
  /\ Forall (fun d =>
       day d = 1%Z /\ (1 <= month d <= 12)%Z /\ (2025 <= year d <= 9999)%Z)
       (get_month_starts (mkdate 2025 11 23) 12)
  /\ forall (k : nat) (d1 d2 : date),
       get_month_starts (mkdate 2025 11 23) 12 !! k = Some d1 ->
       get_month_starts (mkdate 2025 11 23) 12 !! S k = Some d2 ->
       toordinal d2 = (toordinal d1 + month_days (year d1) (month d1))%Z
       /\ date_lt d1 d2
       /\ ((month d1 < 12 /\ year d2 = year d1 /\ month d2 = month d1 + 1)
           \/ (month d1 = 12 /\ year d2 = year d1 + 1 /\ month d2 = 1))%Z.
Proof.
  apply (month_starts_are_contiguous (mkdate 2025 11 23) 12).
  - simpl. lia.
  - simpl. lia.
  - vm_compute. discriminate.
Defined.

(** The ordinals of the dates of the daily table. *)
Lemma simulate_daily_ordinals {N} `{Number N} (P : Params N) (gm : string) t :
  simulate P gm = Ok t -> (0 < MONTHS P)%Z -> (1 <= month (START_DATE P) <= 12)%Z ->
  let first := mkdate (year (START_DATE P)) (month (START_DATE P)) 1 in
  (fun x => toordinal (d_date (row x))) <$> daily_df t
    = seqZ (toordinal first) (Z.of_nat (length (daily_df t)))
  /\ Z.of_nat (length (daily_df t))
     = (toordinal (add_months first (MONTHS P)) - toordinal first)%Z.
Proof.
  intros Ht Hn Hmonth. pose proof (simulate_daily_rows P gm t Ht) as Hd.
  apply simulate_monthly in Ht as (Hm & _).
  pose proof (monthly_rows_index_start P gm _ Hm) as (_ & Hstart & _).
  cbv zeta. set (first := mkdate (year (START_DATE P)) (month (START_DATE P)) 1).
  assert (add_months first 0 = first) as H0.
  { unfold add_months, first; simpl. rewrite Z.add_0_r.
    rewrite Z.div_small, Z.mod_small by lia.
    pose proof (month_days_range (year (START_DATE P) + 0)
                  (month (START_DATE P) - 1 + 1)). f_equal; lia. }
  assert ((fun x => toordinal (d_date (row x))) <$> daily_df t
          = seqZ (toordinal first)
              (toordinal (add_months first (MONTHS P)) - toordinal first)) as Hord.
  { transitivity (toordinal <$> (d_date <$> (row <$> daily_df t))).
    - by rewrite <- !list_fmap_compose.
    - rewrite Hd, daily_list_dates, Hstart. unfold get_month_starts. fold first.
      change (fun i => add_months first i) with (add_months first).
      pose proof (month_starts_ordinals first (Z.to_nat (MONTHS P)) 0 eq_refl) as Hs.
      rewrite Z2Nat.id in Hs by lia. rewrite Hs, H0. by rewrite Z.add_0_l. }
  assert (Z.of_nat (length (daily_df t))
          = (toordinal (add_months first (MONTHS P)) - toordinal first)%Z) as Hlen.
  { rewrite <- (length_fmap (fun x => toordinal (d_date (row x)))), Hord, length_seqZ.
    pose proof (add_months_ordinal_mono first 0 (Z.to_nat (MONTHS P)) eq_refl) as Hmono.
    rewrite Z2Nat.id, H0, Z.add_0_l in Hmono by lia. lia. }
  split; [by rewrite Hlen|done].
Qed.

(** X12. The daily table covers the calendar without gap or repetition:
    its dates are consecutive days, from the first day of the month of the
    start date to the eve of the first month after the schedule, so that
    the number of its rows is the number of days between these two
    dates. *)
Theorem daily_table_covers_consecutive_days {N} `{Number N}
    (P : Params N) (gm : string) :
  valid_growth_model gm -> (0 < MONTHS P)%Z -> valid_date (START_DATE P) ->
  exists t, simulate P gm = Ok t /\
    let first := mkdate (year (START_DATE P)) (month (START_DATE P)) 1 in
    (fun x => toordinal (d_date (row x))) <$> daily_df t
      = seqZ (toordinal first) (Z.of_nat (length (daily_df t)))
    /\ Z.of_nat (length (daily_df t))
       = (toordinal (add_months first (MONTHS P)) - toordinal first)%Z
    /\ forall (i : nat) x y,
         daily_df t !! i = Some x -> daily_df t !! S i = Some y ->
         toordinal (d_date (row y)) = (toordinal (d_date (row x)) + 1)%Z.
Proof.
  intros Hgm Hn [Hmonth _]. destruct (simulate_valid P gm Hgm Hn) as [t Ht]. exists t.
  split; [done|].
  destruct (simulate_daily_ordinals P gm t Ht Hn Hmonth) as [Hord Hlen].
  split; [done|]. split; [done|].
  intros i x y Hx Hy.
  assert (((fun x => toordinal (d_date (row x))) <$> daily_df t) !! i
          = Some (toordinal (d_date (row x)))) as Hix
    by (by rewrite list_lookup_fmap, Hx).
  assert (((fun x => toordinal (d_date (row x))) <$> daily_df t) !! S i
          = Some (toordinal (d_date (row y)))) as Hiy
    by (by rewrite list_lookup_fmap, Hy).
  rewrite Hord in Hix, Hiy.
  apply lookup_seqZ in Hix as [-> _], Hiy as [-> _]. lia.
Qed.

Lemma daily_table_covers_consecutive_days_witness :
  exists t, simulate defaults_binary64 "retained_plus_new" = Ok t /\
    let first := mkdate 2025 11 1 in
    (fun x => toordinal (d_date (row x))) <$> daily_df t
      = seqZ (toordinal first) (Z.of_nat (length (daily_df t)))
    /\ Z.of_nat (length (daily_df t))
       = (toordinal (add_months first 12) - toordinal first)%Z
    /\ forall (i : nat) x y,
         daily_df t !! i = Some x -> daily_df t !! S i = Some y ->
         toordinal (d_date (row y)) = (toordinal (d_date (row x)) + 1)%Z.
Proof.
  apply (daily_table_covers_consecutive_days defaults_binary64 "retained_plus_new").
  - left. reflexivity.
  - reflexivity.
  - unfold valid_date, month_days, isleap. simpl. lia.
Defined.

(** X13. A schedule of twelve months covers one year of days: the daily
    table has 366 rows when the twelve months contain a 29th of February
    (the start month is January or February of a leap year, or a later
    month of the year before a leap year), and 365 rows otherwise. *)
Theorem twelve_months_cover_a_year {N} `{Number N} (P : Params N) (gm : string) :
  valid_growth_model gm -> MONTHS P = 12%Z -> valid_date (START_DATE P) ->
  exists t, simulate P gm = Ok t /\
    length (daily_df t)
    = if isleap (if (month (START_DATE P) <=? 2)%Z then year (START_DATE P)
                 else (year (START_DATE P) + 1)%Z)
      then 366%nat else 365%nat.
Proof.
  intros Hgm H12 [Hmonth _].
  assert (0 < MONTHS P)%Z as Hn by lia.
  destruct (simulate_valid P gm Hgm Hn) as [t Ht]. exists t. split; [done|].
  destruct (simulate_daily_ordinals P gm t Ht Hn Hmonth) as [_ Hlen].
  rewrite H12 in Hlen. cbv zeta in Hlen.
  set (y := year (START_DATE P)) in *. set (mo := month (START_DATE P)) in *.
  assert (add_months (mkdate y mo 1) 12 = mkdate (y + 1) mo 1) as Hnext.
  { unfold add_months; simpl.
    replace ((mo - 1 + 12) / 12)%Z with 1%Z by (Z.div_mod_to_equations; lia).
    replace ((mo - 1 + 12) mod 12 + 1)%Z with mo by (Z.div_mod_to_equations; lia).
    pose proof (month_days_range (y + 1) mo Hmonth). f_equal. lia. }
  rewrite Hnext in Hlen. unfold toordinal in Hlen. simpl in Hlen.
  rewrite days_before_year_succ in Hlen.
  rewrite !(days_before_month_table _ _ Hmonth) in Hlen.
  destruct (mo <=? 2)%Z eqn:E.
  - apply Z.leb_le in E. assert ((2 <? mo)%Z = false) as Hf by (apply Z.ltb_ge; lia).
    rewrite Hf in Hlen. simpl in Hlen. destruct (isleap y); lia.
  - apply Z.leb_gt in E. assert ((2 <? mo)%Z = true) as Hf by (apply Z.ltb_lt; lia).
    rewrite Hf in Hlen. simpl in Hlen.
    destruct (isleap y), (isleap (y + 1)); lia.
Qed.

Lemma twelve_months_cover_a_year_witness :
  exists t, simulate defaults_binary64 "simple_growth" = Ok t /\
    length (daily_df t) = 365%nat.
Proof.
  apply (twelve_months_cover_a_year defaults_binary64 "simple_growth").
  - right. reflexivity.
  - reflexivity.
  - unfold valid_date, month_days, isleap. simpl. lia.
Defined.

(** ** Weeks *)

Lemma seqZ_sorted (o n : Z) : StronglySorted Z.lt (seqZ o n).
Proof.
  destruct (decide (0 <= n)%Z) as [Hn|Hn]; [|rewrite seqZ_nil by lia; constructor].
  rewrite <- (Z2Nat.id n Hn). generalize (Z.to_nat n). clear n Hn. intros k.
  revert o. induction k as [|k IH]; intros o; [constructor|].
  rewrite seqZ_cons by lia.
  replace (Z.pred (Z.of_nat (S k))) with (Z.of_nat k) by lia.
  apply StronglySorted_cons. split; [|apply IH].
  apply Forall_forall.
  intros z [i [-> _]%lookup_seqZ]%list_elem_of_lookup_1. lia.
Qed.

Lemma filter_fmap_sorted {A} (f : A -> Z) (Q' : A -> Prop)
    `{!forall x, Decision (Q' x)} (l : list A) :
  StronglySorted Z.lt (f <$> l) -> StronglySorted Z.lt (f <$> filter Q' l).
Proof.
  induction l as [|x l IH]; [done|].
  rewrite fmap_cons. intros [Hall Hs]%StronglySorted_cons.
  rewrite filter_cons. destruct (decide (Q' x)); [|by apply IH].
  rewrite fmap_cons. apply StronglySorted_cons. split; [|by apply IH].
  rewrite Forall_fmap in Hall |- *. rewrite Forall_forall in Hall.
  apply Forall_forall. intros y [_ Hy]%list_elem_of_filter. by apply Hall.
Qed.

Lemma sorted_in_range_length (l : list Z) : forall lo hi : Z,
  StronglySorted Z.lt l -> Forall (fun z => (lo <= z <= hi)%Z) l ->
  (Z.of_nat (length l) <= Z.max 0 (hi - lo + 1))%Z.
Proof.
  induction l as [|z l IH]; intros lo hi Hs Hr; simpl length; [lia|].
  apply StronglySorted_cons in Hs as [Hall Hs].
  apply Forall_cons in Hr as [Hz Hr].
  assert (Forall (fun x => (z + 1 <= x <= hi)%Z) l) as Hr'.
  { rewrite Forall_forall in Hall, Hr. apply Forall_forall. intros x Hx.
    pose proof (Hall x Hx). pose proof (Hr x Hx). lia. }
  pose proof (IH (z + 1)%Z hi Hs Hr'). lia.
Qed.

Lemma sum_list_zero {A} (l : list A) : sum_list ((fun _ => 0%nat) <$> l) = 0%nat.
Proof. induction l as [|x l IH]; [done|]. by rewrite fmap_cons. Qed.

Lemma sum_list_fmap_add {A} (f g : A -> nat) (l : list A) :
  sum_list ((fun x => (f x + g x)%nat) <$> l)
  = (sum_list (f <$> l) + sum_list (g <$> l))%nat.
Proof.
  induction l as [|x l IH]; [done|]. rewrite !fmap_cons. simpl. rewrite IH. lia.
Qed.

Lemma sum_list_indicator (k : date) (K : list date) :
  NoDup K -> k ∈ K ->
  sum_list ((fun k' => if decide (k = k') then 1%nat else 0%nat) <$> K) = 1%nat.
Proof.
  induction 1 as [|k0 K Hk0 Hnd IH]; [by intros ?%elem_of_nil|].
  rewrite fmap_cons. simpl. intros [->|Hin]%elem_of_cons.
  - rewrite decide_True by done.
    assert (sum_list ((fun k' => if decide (k0 = k') then 1%nat else 0%nat) <$> K)
            = 0%nat) as ->; [|done].
    etransitivity; [|apply (sum_list_zero K)]. f_equal. apply list_fmap_ext.
    intros _ k' Hk'%list_elem_of_lookup_2.
    rewrite decide_False; [done|]. intros Heq. apply Hk0. by rewrite Heq.
  - rewrite decide_False; [by rewrite IH|]. intros ->. by apply Hk0.
Qed.

(** Rows keyed by the elements of a duplicate-free list of keys are
    counted once each by the groups of these keys. *)
Lemma groups_count_rows {N} (K : list date) (df : list (DailyRow N)) :
  NoDup K -> Forall (fun x => week_start x ∈ K) df ->
  sum_list ((fun k => length (week_rows k df)) <$> K) = length df.
Proof.
  intros Hnd. induction 1 as [|x df Hx _ IH].
  - apply sum_list_zero.
  - transitivity
      (sum_list ((fun k => ((if decide (week_start x = k) then 1 else 0)
                            + length (week_rows k df))%nat) <$> K)).
    + f_equal. apply list_fmap_ext. intros _ k _. unfold week_rows.
      rewrite filter_cons. by destruct (decide (week_start x = k)).
    + rewrite sum_list_fmap_add, IH, sum_list_indicator by done. done.
Qed.

(** X14. The weeks of the weekly table partition the daily table into
    groups of one to seven days: every weekly row sums at least one and at
    most seven daily rows, and the sizes of the groups add up to the
    number of rows of the daily table, each daily row being in the group
    of exactly one weekly row. *)
Theorem weeks_hold_one_to_seven_days {N} `{Number N} (P : Params N) (gm : string) :
  valid_growth_model gm -> (0 < MONTHS P)%Z -> valid_date (START_DATE P) ->
  exists t, simulate P gm = Ok t /\
    Forall (fun w =>
      (1 <= length (week_rows (w_week_start w) (daily_df t)) <= 7)%nat)
      (weekly_df t)
    /\ sum_list ((fun w => length (week_rows (w_week_start w) (daily_df t)))
                  <$> weekly_df t)
       = length (daily_df t)
    /\ Forall (fun x =>
         exists w, w ∈ weekly_df t /\ w_week_start w = week_start x
                   /\ forall w', w' ∈ weekly_df t ->
                                 w_week_start w' = week_start x -> w' = w)
         (daily_df t).
Proof.
  intros Hgm Hn [Hmonth _]. destruct (simulate_valid P gm Hgm Hn) as [t Ht]. exists t.
  split; [done|].
  destruct (simulate_daily_ordinals P gm t Ht Hn Hmonth) as [Hord _].
  apply simulate_monthly in Ht as (Hm & _ & Hd & Hw).
  destruct (groupby_week_sum_keys (daily_df t)) as [Hs Hk]. rewrite <- Hw in Hs, Hk.
  pose proof (sorted_keys_NoDup _ Hs) as Hnd.
  assert (Forall (fun x => valid_date (d_date (row x))
                           /\ week_start x = week_start_of (d_date (row x)))
            (daily_df t)) as Hdates.
  { rewrite Hd. apply Forall_fmap.
    eapply Forall_impl; [apply daily_list_valid_dates|].
    - eapply Forall_impl; [exact (monthly_rows_month_valid P gm _ Hm)|].
      simpl. by intros r [? _].
    - simpl. by intros x Hx. }
  split; [|split].
  - apply Forall_forall. intros w Hin. split.
    + assert (w_week_start w ∈ week_start <$> daily_df t) as Hkey
        by (by apply Hk, list_elem_of_fmap_2).
      apply list_elem_of_fmap in Hkey as (x & Hx & Hin').
      assert (x ∈ week_rows (w_week_start w) (daily_df t)) as Hxin
        by (by apply list_elem_of_filter).
      destruct (week_rows (w_week_start w) (daily_df t)); [|simpl; lia].
      by apply elem_of_nil in Hxin.
    + pose proof (sorted_in_range_length
                    ((fun x => toordinal (d_date (row x)))
                       <$> week_rows (w_week_start w) (daily_df t))
                    (toordinal (w_week_start w)) (toordinal (w_week_start w) + 6)) as Hlen.
      rewrite length_fmap in Hlen.
      assert (Z.of_nat (length (week_rows (w_week_start w) (daily_df t)))
              <= Z.max 0 (toordinal (w_week_start w) + 6 - toordinal (w_week_start w) + 1))%Z;
        [|lia].
      apply Hlen.
      * apply filter_fmap_sorted. rewrite Hord. apply seqZ_sorted.
      * apply Forall_fmap, Forall_forall. intros x [Hkey Hx]%list_elem_of_filter.
        rewrite Forall_forall in Hdates. destruct (Hdates x Hx) as [Hv Hws].
        destruct (week_start_of_monday _ Hv) as (_ & _ & _ & Hrange).
        simpl. rewrite <- Hkey, Hws. lia.
  - rewrite <- (groups_count_rows (w_week_start <$> weekly_df t) (daily_df t) Hnd).
    + by rewrite <- list_fmap_compose.
    + apply Forall_forall. intros x Hx. apply Hk. by apply list_elem_of_fmap_2.
  - apply Forall_forall. intros x Hx.
    assert (week_start x ∈ w_week_start <$> weekly_df t) as Hkey
      by (by apply Hk, list_elem_of_fmap_2).
    apply list_elem_of_fmap in Hkey as (w & Hwk & Hwin).
    exists w. split; [done|]. split; [done|].
    intros w' Hw'in Hw'k.
    apply list_elem_of_lookup_1 in Hwin as [i Hi], Hw'in as [j Hj].
    assert (i = j) as ->.
    { eapply NoDup_lookup; [exact Hnd| |].
      - rewrite list_lookup_fmap, Hi. simpl. by rewrite <- Hwk.
      - rewrite list_lookup_fmap, Hj. simpl. by rewrite Hw'k. }
    congruence.
Qed.

Lemma weeks_hold_one_to_seven_days_witness :
  exists t, simulate defaults_binary64 "retained_plus_new" = Ok t /\
    Forall (fun w =>
      (1 <= length (week_rows (w_week_start w) (daily_df t)) <= 7)%nat)
      (weekly_df t)
    /\ sum_list ((fun w => length (week_rows (w_week_start w) (daily_df t)))
                  <$> weekly_df t)
       = length (daily_df t)
    /\ Forall (fun x =>
         exists w, w ∈ weekly_df t /\ w_week_start w = week_start x
                   /\ forall w', w' ∈ weekly_df t ->
                                 w_week_start w' = week_start x -> w' = w)
         (daily_df t).
Proof.
  apply (weeks_hold_one_to_seven_days defaults_binary64 "retained_plus_new").
  - left. reflexivity.
  - reflexivity.
  - unfold valid_date, month_days, isleap. simpl. lia.
Defined.

(** ** Totals across the three tables *)

(** Over the rationals a step of the grouped sum adds the value, less
    the compensation, and leaves a compensation of zero. *)
Lemma kahan_step_exact (a : Q * Q) (v : Q) :
  (kahan_step a v).1 == a.1 + (v - a.2) /\ (kahan_step a v).2 == 0.
Proof.
  destruct a as [s c].
  change (kahan_step (s, c) v) with (s + (v - c), s + (v - c) - s - (v - c)).
  simpl. split; ring.
Qed.

Lemma group_insert_total (c : FlowCol) (x : DailyRow Q) (gs : list (@WeekGroup Q)) :
  Forall (fun g => (g_acc g c).2 == 0) gs ->
  Forall (fun g => (g_acc g c).2 == 0) (group_insert x gs)
  /\ Qsum ((fun g => (g_acc g c).1) <$> group_insert x gs)
     == Qsum ((fun g => (g_acc g c).1) <$> gs) + daily_col c (row x).
Proof.
  induction gs as [|g gs IH]; cbn [group_insert]; intros Hc.
  - unfold group_new, group_add; cbn [g_acc].
    destruct (kahan_step_exact (@num0 Q _, @num0 Q _) (daily_col c (row x)))
      as [H1 H2].
    split; [by repeat constructor|].
    rewrite !fmap_cons, !Qsum_cons. cbn [g_acc]. rewrite H1.
    change (Qsum ((fun g => (g_acc g c).1) <$> [])) with 0.
    change (@num0 Q Q_number) with 0. simpl. ring.
  - apply Forall_cons in Hc as [Hg Hc].
    destruct (date_eqb (week_start x) (g_week_start g)).
    + destruct (kahan_step_exact (g_acc g c) (daily_col c (row x))) as [H1 H2].
      split; [by constructor|].
      rewrite !fmap_cons, !Qsum_cons. cbn [group_add g_acc]. rewrite H1, Hg.
      sum_lra.
    + destruct (date_ltb (week_start x) (g_week_start g)).
      * destruct (kahan_step_exact (@num0 Q _, @num0 Q _) (daily_col c (row x)))
          as [H1 H2].
        split; [constructor; [done|by constructor]|].
        rewrite (fmap_cons _ (group_new x)), Qsum_cons.
        unfold group_new, group_add; cbn [g_acc]. rewrite H1.
        change (@num0 Q Q_number) with 0. simpl. sum_lra.
      * destruct (IH Hc) as [IH1 IH2]. split; [by constructor|].
        rewrite !fmap_cons, !Qsum_cons, IH2. sum_lra.
Qed.

Lemma week_groups_total (c : FlowCol) (df : list (DailyRow Q)) :
  Forall (fun g => (g_acc g c).2 == 0) (week_groups df)
  /\ Qsum ((fun g => (g_acc g c).1) <$> week_groups df)
     == Qsum ((fun x => daily_col c (row x)) <$> df).
Proof.
  induction df as [|x df [IH1 IH2]] using rev_ind; [split; [constructor|reflexivity]|].
  rewrite week_groups_snoc. destruct (group_insert_total c x _ IH1) as [H1 H2].
  split; [done|]. rewrite H2, IH2, fmap_app, Qsum_app.
  change (Qsum ((fun x0 => daily_col c (row x0)) <$> [x]))
    with (daily_col c (row x) + 0).
  sum_lra.
Qed.

Lemma group_insert_index_total {N} `{Number N} (x : DailyRow N)
    (gs : list (@WeekGroup N)) :
  Zsum (g_month_index <$> group_insert x gs)
  = (Zsum (g_month_index <$> gs) + d_month_index (row x))%Z.
Proof.
  induction gs as [|g gs IH]; cbn [group_insert].
  - simpl. lia.
  - destruct (date_eqb (week_start x) (g_week_start g)).
    + rewrite !fmap_cons. simpl. lia.
    + destruct (date_ltb (week_start x) (g_week_start g)).
      * rewrite !fmap_cons. simpl. lia.
      * rewrite !fmap_cons. simpl in *. rewrite IH. lia.
Qed.

(** The [month_index] column of the weekly table adds up to that of the
    daily table. *)
Lemma groupby_week_sum_index_total {N} `{Number N} (df : list (DailyRow N)) :
  Zsum (w_month_index <$> groupby_week_sum df)
  = Zsum ((fun x => d_month_index (row x)) <$> df).
Proof.
  unfold groupby_week_sum. rewrite <- list_fmap_compose.
  change (w_month_index ∘ weekly_of_group) with (@g_month_index N).
  induction df as [|x df IH] using rev_ind; [reflexivity|].
  rewrite week_groups_snoc, group_insert_index_total, IH, fmap_app, Zsum_app.
  simpl. lia.
Qed.

(** Over the rationals every flow column of the weekly table adds up to
    that of the daily table. *)
Lemma groupby_week_sum_total (c : FlowCol) (df : list (DailyRow Q)) :
  Qsum (weekly_col c <$> groupby_week_sum df)
  == Qsum ((fun x => daily_col c (row x)) <$> df).
Proof.
  unfold groupby_week_sum. rewrite <- list_fmap_compose.
  destruct (week_groups_total c df) as [_ <-].
  assert (weekly_col c ∘ weekly_of_group <$> week_groups df
          = (fun g => (g_acc g c).1) <$> week_groups df) as ->; [|reflexivity].
  apply list_fmap_ext. intros _ g _. apply weekly_of_group_col.
Qed.

Lemma daily_list_total (c : FlowCol) (m : list (MonthRecord Q)) :
  Forall (fun r => (1 <= month (m_month_start r) <= 12)%Z) m ->
  Qsum (daily_col c <$> daily_list m) == Qsum (month_col c <$> m).
Proof.
  induction 1 as [|r m Hr _ IH]; [reflexivity|].
  rewrite daily_list_cons, fmap_app, Qsum_app, fmap_cons, Qsum_cons, IH.
  destruct (daily_of_month_sum r c Hr) as [_ ->]. reflexivity.
Qed.

(** X15. Over exact rationals, splitting the months into days and
    regrouping the days into weeks conserves every flow column: its
    total over the monthly table, over the daily table and over the
    weekly table are the same number.  In the binary64 run of the script
    these totals, added up from left to right, differ by rounding and
    agree up to a relative error of 1e-12.  In both, the total of the
    integer column [month_index] of the weekly table is that of the
    daily table. *)
Theorem totals_are_conserved (P : Params Q) (gm : string) :
  valid_growth_model gm -> (0 < MONTHS P)%Z ->
  (exists t, simulate P gm = Ok t /\
    (forall c,
       Qsum ((fun x => daily_col c (row x)) <$> daily_df t)
         == Qsum (month_col c <$> monthly_df t)
       /\ Qsum (weekly_col c <$> weekly_df t)
          == Qsum (month_col c <$> monthly_df t))
    /\ Zsum (w_month_index <$> weekly_df t)
       = Zsum ((fun x => d_month_index (row x)) <$> daily_df t))
  /\ (exists t, simulate defaults_binary64 gm = Ok t /\
        (forall c,
           close_b (float_sum ((fun x => daily_col c (row x)) <$> daily_df t))
             (float_sum (month_col c <$> monthly_df t)) = true
           /\ close_b (float_sum (weekly_col c <$> weekly_df t))
                (float_sum (month_col c <$> monthly_df t)) = true)
        /\ Zsum (w_month_index <$> weekly_df t)
           = Zsum ((fun x => d_month_index (row x)) <$> daily_df t)).
Proof.
  intros Hgm Hn. split.
  2: { assert (run_binary64 gm (fun t =>
                 forallb (fun c =>
                   close_b (float_sum ((fun x => daily_col c (row x)) <$> daily_df t))
                     (float_sum (month_col c <$> monthly_df t))
                   && close_b (float_sum (weekly_col c <$> weekly_df t))
                        (float_sum (month_col c <$> monthly_df t)))
                   all_columns) = true) as Hrun
         by (destruct Hgm as [-> | ->]; vm_compute; reflexivity).
       apply run_binary64_ok in Hrun as (t & Ht & Hall). exists t.
       split; [done|]. split.
       - intros c. pose proof (forallb_all_columns _ Hall c) as Hc.
         cbv beta in Hc. by apply andb_true_iff in Hc.
       - apply simulate_monthly in Ht as (_ & _ & _ & ->).
         apply groupby_week_sum_index_total. }
  destruct (simulate_valid P gm Hgm Hn) as [t Ht]. exists t.
  split; [done|]. pose proof (simulate_daily_rows P gm t Ht) as Hd.
  apply simulate_monthly in Ht as (Hm & _ & _ & Hw).
  assert (Forall (fun r => (1 <= month (m_month_start r) <= 12)%Z) (monthly_df t))
    as Hv.
  { eapply Forall_impl; [exact (monthly_rows_month_valid P gm _ Hm)|].
    simpl. by intros r [? _]. }
  assert (forall c, Qsum ((fun x => daily_col c (row x)) <$> daily_df t)
                    == Qsum (month_col c <$> monthly_df t)) as Hdaily.
  { intros c. rewrite <- (daily_list_total c _ Hv), <- Hd.
    by rewrite <- list_fmap_compose. }
  split.
  - intros c. split; [done|]. rewrite Hw, groupby_week_sum_total. apply Hdaily.
  - rewrite Hw. apply groupby_week_sum_index_total.
Qed.

Lemma totals_are_conserved_witness :
  (exists t, simulate defaults "simple_growth" = Ok t /\
    (forall c,
       Qsum ((fun x => daily_col c (row x)) <$> daily_df t)
         == Qsum (month_col c <$> monthly_df t)
       /\ Qsum (weekly_col c <$> weekly_df t)
          == Qsum (month_col c <$> monthly_df t))
    /\ Zsum (w_month_index <$> weekly_df t)
       = Zsum ((fun x => d_month_index (row x)) <$> daily_df t))
  /\ (exists t, simulate defaults_binary64 "simple_growth" = Ok t /\
        (forall c,
           close_b (float_sum ((fun x => daily_col c (row x)) <$> daily_df t))
             (float_sum (month_col c <$> monthly_df t)) = true
           /\ close_b (float_sum (weekly_col c <$> weekly_df t))
                (float_sum (month_col c <$> monthly_df t)) = true)
        /\ Zsum (w_month_index <$> weekly_df t)
           = Zsum ((fun x => d_month_index (row x)) <$> daily_df t)).
Proof.
  apply (totals_are_conserved defaults "simple_growth").
  - right. reflexivity.
  - reflexivity.
Defined.

(** ** Shrinking months *)

(** X16. Under [simple_growth], in a month whose growth parameter is so
    low that one plus it is below the retention rate (a shrinking month),
    the new players are clipped to zero: the row then reports more
    retained players than players in total, no acquisition cost, and its
    player counts no longer add up. *)
Theorem simple_growth_clips_new_players (P : Params Q) (t : Tables Q)
    (k : nat) (r : MonthRecord Q) :
  simulate P "simple_growth" = Ok t -> monthly_df t !! k = Some r ->
  0 < match prev_row (monthly_df t) k with
      | None => STARTING_PLAYERS P
      | Some p => m_total_players p
      end ->
  1 + m_growth_param r < RETENTION_RATE P ->
  m_new_players r = 0
  /\ m_total_players r < m_retained_players r
  /\ m_acquisition_cost r == 0
  /\ ~ m_retained_players r + m_new_players r == m_total_players r.
Proof.
  intros (Hm & _)%simulate_monthly Hk Hcur Hg.
  destruct (monthly_rows_follow P _ _ Hm k r Hk) as (st & st' & Hc & Hr).
  pose proof (mr_players _ _ _ _ _ _ _ Hr) as Hpl.
  pose proof (mr_acquisition_cost _ _ _ _ _ _ _ Hr) as Hac.
  assert (current_players st
          = match prev_row (monthly_df t) k with
            | None => STARTING_PLAYERS P
            | Some p => m_total_players p
            end) as Hst
    by (destruct (prev_row (monthly_df t) k); simpl in Hc; congruence).
  rewrite <- Hst in Hcur. clear Hst Hc.
  unfold month_players in Hpl. simpl in Hpl. injection Hpl as Hret Hnew Htot.
  unfold_num.
  assert (0 < current_players st * (RETENTION_RATE P - (1 + m_growth_param r))) as Hx
    by (apply Qmult_lt_0_compat; lra).
  assert (m_total_players r < m_retained_players r) as Hlt
    by (rewrite <- Htot, <- Hret; lra).
  assert (m_new_players r = 0) as Hzero.
  { rewrite <- Hnew.
    destruct (py_max_cases
                (current_players st * (1 + m_growth_param r)
                 - current_players st * RETENTION_RATE P) 0)
      as [[? ->]|[? ?]]; [done|lra]. }
  split; [done|]. split; [done|]. rewrite Hac, Hzero. unfold_num.
  split; [ring | lra].
Qed.

Lemma simple_growth_clips_new_players_witness :
  exists t r, simulate shrinking_month "simple_growth" = Ok t
    /\ monthly_df t !! 0%nat = Some r
    /\ m_new_players r = 0
    /\ m_total_players r < m_retained_players r
    /\ m_acquisition_cost r == 0
    /\ ~ m_retained_players r + m_new_players r == m_total_players r.
Proof.
  destruct (simulate_valid shrinking_month "simple_growth") as [t Ht];
    [right; reflexivity | reflexivity |].
  destruct (first_month shrinking_month _ t eq_refl Ht) as (st1 & Hstep & Hhead).
  vm_compute in Hstep. injection Hstep as <-.
  rewrite head_lookup in Hhead. simpl in Hhead.
  eexists t, _. split; [exact Ht|]. split; [exact Hhead|].
  apply (simple_growth_clips_new_players shrinking_month t 0 _ Ht Hhead).
  - reflexivity.
  - reflexivity.
Defined.

(** ** Days of one month *)

Lemma same_index_same_row {N} (m : list (MonthRecord N)) (r r' : MonthRecord N) :
  NoDup (m_month_index <$> m) -> r ∈ m -> r' ∈ m ->
  m_month_index r = m_month_index r' -> r = r'.
Proof.
  intros Hnd [i Hi]%list_elem_of_lookup_1 [j Hj]%list_elem_of_lookup_1 Heq.
  assert (i = j) as ->; [|congruence].
  eapply NoDup_lookup; [exact Hnd| |].
  - by rewrite list_lookup_fmap, Hi.
  - rewrite list_lookup_fmap, Hj. simpl. by rewrite Heq.
Qed.

(** X17. Within a month the daily table is flat: two daily rows tagged
    with the same month index fall in the same calendar month and carry
    the same value in every flow column, namely the month's value times
    [1.0 / ndays] as the program computes it.  This holds in binary64 as
    over the rationals. *)
Theorem daily_rows_flat_within_month {N} `{Number N} (P : Params N) (gm : string) :
  valid_growth_model gm -> (0 < MONTHS P)%Z ->
  exists t, simulate P gm = Ok t /\
    forall x y, x ∈ daily_df t -> y ∈ daily_df t ->
      d_month_index (row x) = d_month_index (row y) ->
      year (d_date (row x)) = year (d_date (row y))
      /\ month (d_date (row x)) = month (d_date (row y))
      /\ forall c, daily_col c (row x) = daily_col c (row y).
Proof.
  intros Hgm Hn. destruct (simulate_valid P gm Hgm Hn) as [t Ht]. exists t.
  split; [done|]. apply simulate_monthly in Ht as (Hm & _ & Hd & _).
  pose proof (monthly_rows_index_start P gm _ Hm) as (Hidx & _).
  assert (NoDup (m_month_index <$> monthly_df t)) as Hnd
    by (rewrite Hidx; apply NoDup_seqZ).
  assert (forall x, x ∈ daily_df t ->
            exists r, r ∈ monthly_df t /\ row x ∈ daily_of_month r) as Hblock.
  { intros x Hx. rewrite Hd in Hx.
    apply list_elem_of_fmap in Hx as (z & -> & Hz).
    apply list_elem_of_bind in Hz as (r & Hz & Hr). eauto. }
  intros x y Hx Hy Hxy.
  destruct (Hblock x Hx) as (r & Hr & Hxr). destruct (Hblock y Hy) as (r' & Hr' & Hyr).
  pose proof (daily_of_month_fields r) as Hf. pose proof (daily_of_month_fields r') as Hf'.
  cbv zeta in Hf, Hf'. rewrite Forall_forall in Hf, Hf'.
  destruct (Hf _ Hxr) as [Hix Hcx]. destruct (Hf' _ Hyr) as [Hiy Hcy].
  assert (r = r') as <-
    by (apply (same_index_same_row (monthly_df t)); [done..|congruence]).
  assert (forall z, z ∈ daily_of_month r ->
            year (d_date z) = year (m_month_start r)
            /\ month (d_date z) = month (m_month_start r)) as Hdate.
  { intros z Hz. unfold daily_of_month in Hz.
    by apply list_elem_of_fmap in Hz as (d & -> & _). }
  destruct (Hdate _ Hxr) as [-> ->]. destruct (Hdate _ Hyr) as [-> ->].
  split; [done|]. split; [done|]. intros c. by rewrite Hcx, Hcy.
Qed.

Lemma daily_rows_flat_within_month_witness :
  exists t, simulate defaults_binary64 "simple_growth" = Ok t /\
    forall x y, x ∈ daily_df t -> y ∈ daily_df t ->
      d_month_index (row x) = d_month_index (row y) ->
      year (d_date (row x)) = year (d_date (row y))
      /\ month (d_date (row x)) = month (d_date (row y))
      /\ forall c, daily_col c (row x) = daily_col c (row y).
Proof.
  apply (daily_rows_flat_within_month defaults_binary64 "simple_growth").
  - right. reflexivity.
  - reflexivity.
Defined.

(** ** Lifetime deposits *)



